(** * KooliForum: the post list component and the /api/posts/[id] handlers

    A shallow embedding of
      - the route handlers GET, DELETE and PUT of /api/posts/[id]
        (src/unnamed/part_001), and
      - the PostList client component: fetchPosts, handleEdit,
        handleCancelEdit, handleSaveEdit, handleDelete, handleVote
        (src/unnamed/part_000),
    together with the properties the specification states about them.

    Asynchronous code is modelled in a state-and-exception monad: [await]
    is sequencing, a rejected promise is a thrown exception, and
    try/catch/finally are the combinators [try_catch] and [finally]. *)

From Stdlib Require Import ZArith Ascii String.
From stdpp Require Import gmap strings list fin_maps.

Local Open Scope string_scope.
Local Open Scope Z_scope.
Local Open Scope list_scope.

(* ===================================================================== *)
(** * JavaScript values at the JSON boundary *)
(* ===================================================================== *)

(** A decoded JSON member as the handlers see it after destructuring.
    [JUndef] is a member that is absent; an array or object is kept as its
    JSON text. *)
Inductive jval : Type :=
  | JUndef
  | JNull
  | JBool (b : bool)
  | JNum (n : Z)
  | JStr (s : string)
  | JOther (text : string).

(** [!v] is [negb (truthy v)]. *)
Definition truthy (v : jval) : bool :=
  match v with
  | JUndef | JNull => false
  | JBool b => b
  | JNum n => negb (n =? 0)
  | JStr s => negb (String.eqb s "")
  | JOther _ => true
  end.

(** Truthiness of a value of type [string | undefined]. *)
Definition truthy_str (o : option string) : bool :=
  match o with
  | None => false
  | Some s => negb (String.eqb s "")
  end.

(** [s.split(sep)] for a one-character separator: never the empty array. *)
Fixpoint split (sep : ascii) (s : string) : list string :=
  match s with
  | EmptyString => [EmptyString]
  | String c s' =>
      if Ascii.eqb c sep then EmptyString :: split sep s'
      else match split sep s' with
           | [] => [String c EmptyString]
           | seg :: rest => String c seg :: rest
           end
  end.

(** [arr.pop()]: the last element, [undefined] on the empty array. *)
Definition pop (l : list string) : option string := last l.

(** A plain object used as a dictionary: its own properties, and whether
    its prototype has been set to [null].  The object literal [{}] has no
    own property and inherits from [Object.prototype]. *)
Record JsObject (V : Type) : Type := mkObject {
  own : gmap string V;
  null_proto : bool
}.
Arguments mkObject {V} _ _.
Arguments own {V} _.
Arguments null_proto {V} _.

Definition empty_object {V : Type} : JsObject V :=
  {| own := ∅; null_proto := false |}.

(** [o[k] = v] for a value [v] that is a primitive or [null].  Under every
    key but one this sets an own property.  Under "__proto__", while the
    object still inherits from [Object.prototype], the assignment runs the
    inherited setter instead: [null] becomes the prototype, any primitive
    is ignored, and no own property appears. *)
Definition assign {V : Type} (is_null : V → bool) (o : JsObject V)
    (k : string) (v : V) : JsObject V :=
  if String.eqb k "__proto__" && negb (null_proto o) then
    if is_null v then {| own := own o; null_proto := true |} else o
  else {| own := <[k := v]> (own o); null_proto := null_proto o |}.

(** The names every object inherits from [Object.prototype]. *)
Definition inherited_names : list string :=
  ["__proto__"; "constructor"; "hasOwnProperty"; "isPrototypeOf";
   "propertyIsEnumerable"; "toLocaleString"; "toString"; "valueOf";
   "__defineGetter__"; "__defineSetter__"; "__lookupGetter__";
   "__lookupSetter__"].

(** What [o[k]] reads from an object that inherits from
    [Object.prototype]: an own property, else a member of the prototype
    (a function or an object, never a string or a number), else
    [undefined]. *)
Inductive Read (V : Type) : Type :=
  | Own (v : V)
  | Inherited
  | Missing.
Arguments Own {V} v.
Arguments Inherited {V}.
Arguments Missing {V}.

Definition read {V : Type} (props : gmap string V) (k : string) : Read V :=
  match props !! k with
  | Some v => Own v
  | None => if bool_decide (k ∈ inherited_names) then Inherited else Missing
  end.

(* ===================================================================== *)
(** * Data model *)
(* ===================================================================== *)

(** A vote direction, the type [1 | -1]. *)
Inductive Vote : Type := Up | Down.

Global Instance Vote_eq_dec : EqDecision Vote.
Proof. solve_decision. Defined.

Definition vote_value (v : Vote) : Z :=
  match v with Up => 1 | Down => -1 end.

(** The value of a [1 | -1 | null] member; [null] counts for nothing. *)
Definition recorded_value (v : option Vote) : Z :=
  match v with Some d => vote_value d | None => 0 end.

Record Voter : Type := mkVoter {
  userId : string;
  vote : option Vote            (* 1 | -1 | null *)
}.

Record Author : Type := mkAuthor {
  author_id : string;
  username : string
}.

(** A stored post document, without its key. *)
Record PostDoc : Type := mkPostDoc {
  title : jval;
  content : jval;
  author : option Author;
  dramaSlug : option string;
  dramaTitle : option string;
  votes : Z;
  voters : option (list Voter);
  createdAt : Z;
  editedAt : option Z
}.

(** A post as it travels to the client: the document with its [_id]. *)
Record Post : Type := mkPost {
  _id : string;
  doc : PostDoc
}.

(* ===================================================================== *)
(** * A state-and-exception monad *)
(* ===================================================================== *)

Inductive Outcome (A : Type) : Type :=
  | Done (a : A)
  | Thrown (e : string).
Arguments Done {A} a.
Arguments Thrown {A} e.

Definition M (St A : Type) : Type := St → Outcome A * St.

Definition ret {St A} (a : A) : M St A := λ s, (Done a, s).

Definition bind {St A B} (m : M St A) (k : A → M St B) : M St B :=
  λ s, match m s with
       | (Done a, s') => k a s'
       | (Thrown e, s') => (Thrown e, s')
       end.

Definition throw {St A} (e : string) : M St A := λ s, (Thrown e, s).

Definition get {St} : M St St := λ s, (Done s, s).

Definition modify {St} (f : St → St) : M St unit := λ s, (Done tt, f s).

(** [try { body } catch (error) { handler }]. *)
Definition try_catch {St A} (body : M St A) (handler : string → M St A) : M St A :=
  λ s, match body s with
       | (Done a, s') => (Done a, s')
       | (Thrown e, s') => handler e s'
       end.

(** [try { body } finally { cleanup }]: the cleanup runs either way and the
    outcome of the body is kept. *)
Definition finally {St A} (body : M St A) (cleanup : M St unit) : M St A :=
  λ s, match body s with
       | (r, s') =>
           match cleanup s' with
           | (Done _, s'') => (r, s'')
           | (Thrown e, s'') => (Thrown e, s'')
           end
       end.

Declare Scope js_scope.
Delimit Scope js_scope with js.
Notation "'let*' x := m 'in' k" := (bind m (λ x, k))
  (at level 10, x pattern, m at level 100, k at level 200) : js_scope.
Notation "m ;;; k" := (bind m (λ _, k))
  (at level 100, k at level 200, right associativity) : js_scope.
Local Open Scope js_scope.

(* ===================================================================== *)
(** * The database and the /api/posts/[id] route handlers *)
(* ===================================================================== *)

Module Server.

(** The collection "posts" of database "reddit-clone", keyed by the
    canonical (lower-case) text of each document's ObjectId.  [connected]
    says whether [clientPromise] resolves.  [memberships] is the table the
    membership lookup of a community reads. *)
Record Db : Type := mkDb {
  connected : bool;
  posts : gmap string PostDoc;
  memberships : gmap (string * string) string   (* (slug, user) to colour *)
}.

Definition set_posts (f : gmap string PostDoc → gmap string PostDoc) (db : Db) : Db :=
  {| connected := connected db; posts := f (posts db);
     memberships := memberships db |}.

Definition is_hex_digit (c : ascii) : bool :=
  let n := N_of_ascii c in
  ((48 <=? n) && (n <=? 57) || (65 <=? n) && (n <=? 70)
   || (97 <=? n) && (n <=? 102))%N.

Definition lower_hex (c : ascii) : ascii :=
  let n := N_of_ascii c in
  if ((65 <=? n) && (n <=? 70))%N then ascii_of_N (n + 32) else c.

Fixpoint all_hex (s : string) : bool :=
  match s with
  | EmptyString => true
  | String c s' => is_hex_digit c && all_hex s'
  end.

Fixpoint lower_all (s : string) : string :=
  match s with
  | EmptyString => EmptyString
  | String c s' => String (lower_hex c) (lower_all s')
  end.

(** Modelled from the spec: [new ObjectId(id)] of the database driver,
    which is not in the source tree and which the specification leaves
    out of scope.  A well-formed identifier is a string of 24 hexadecimal
    characters; the constructor throws on any other string.  Two spellings
    that differ in letter case are the same identifier. *)
Definition ObjectId_new (id : string) : option string :=
  if (String.length id =? 24)%nat && all_hex id then Some (lower_all id) else None.

(** What a handler answers: [NextResponse.json(body, { status })]. *)
Inductive ResBody : Type :=
  | ErrorBody (error : string)       (* { error: ... } *)
  | SuccessBody                      (* { success: true } *)
  | PostBody (p : Post)              (* the document *)
  | PostsBody (ps : list Post)       (* an array of documents *)
  | ColorBody (color : option string).   (* { color } *)

Record Response : Type := mkResponse {
  status : Z;
  body : ResBody
}.

Definition json_error (msg : string) (st : Z) : Response :=
  {| status := st; body := ErrorBody msg |}.

(** [NextResponse.json(x)] without options answers 200. *)
Definition json_ok (b : ResBody) : Response :=
  {| status := 200; body := b |}.

(** The body of a request as [request.json()] yields it.  [BodyInvalid]:
    the text is not JSON and the promise rejects.  [BodyNull]: the JSON
    value [null], which cannot be destructured.  [BodyJson t c]: any other
    JSON value, with its members [title] and [content]. *)
Inductive ReqBody : Type :=
  | BodyInvalid
  | BodyNull
  | BodyJson (title_ content_ : jval).

Record NextRequest : Type := mkRequest {
  pathname : string;               (* request.nextUrl.pathname *)
  payload : ReqBody;
  now : Z                          (* what [new Date()] reads *)
}.

(** [await clientPromise; client.db("reddit-clone")]. *)
Definition clientPromise : M Db unit :=
  let* db := get in
  if connected db then ret tt else throw "MongoNetworkError".

(** [new ObjectId(id)]. *)
Definition new_ObjectId (id : string) : M Db string :=
  match ObjectId_new id with
  | Some oid => ret oid
  | None => throw "BSONError"
  end.

(** [collection.findOne({ _id })]. *)
Definition findOne (oid : string) : M Db (option Post) :=
  let* db := get in
  ret ((λ d, {| _id := oid; doc := d |}) <$> posts db !! oid).

(** [collection.deleteOne({ _id })], returning [deletedCount]. *)
Definition deleteOne (oid : string) : M Db Z :=
  let* db := get in
  match posts db !! oid with
  | Some _ => modify (set_posts (delete oid));;; ret 1
  | None => ret 0
  end.

Definition set_fields (t c : jval) (at_ : Z) (d : PostDoc) : PostDoc :=
  {| title := t; content := c; author := author d;
     dramaSlug := dramaSlug d; dramaTitle := dramaTitle d;
     votes := votes d; voters := voters d;
     createdAt := createdAt d; editedAt := Some at_ |}.

(** [collection.updateOne({ _id }, { $set: { title, content, editedAt } })],
    returning [matchedCount]. *)
Definition updateOne (oid : string) (t c : jval) (at_ : Z) : M Db Z :=
  let* db := get in
  match posts db !! oid with
  | Some d => modify (set_posts (<[oid := set_fields t c at_ d]>));;; ret 1
  | None => ret 0
  end.

(** [request.nextUrl.pathname.split('/').pop()]. *)
Definition path_id (req : NextRequest) : option string :=
  pop (split "/" (pathname req)).

(** [await request.json()] followed by [const { title, content } = data]. *)
Definition request_json (req : NextRequest) : M Db (jval * jval) :=
  match payload req with
  | BodyInvalid => throw "SyntaxError"
  | BodyNull => throw "TypeError"
  | BodyJson t c => ret (t, c)
  end.

Definition GET (req : NextRequest) : M Db Response :=
  try_catch
    (let id := path_id req in
     if negb (truthy_str id) then ret (json_error "Post ID is required" 400)
     else
       clientPromise;;;
       let* oid := new_ObjectId (default "" id) in
       let* post := findOne oid in
       match post with
       | None => ret (json_error "Post not found" 404)
       | Some p => ret (json_ok (PostBody p))
       end)
    (λ _, ret (json_error "Failed to fetch post" 500)).

Definition DELETE (req : NextRequest) : M Db Response :=
  try_catch
    (let id := path_id req in
     if negb (truthy_str id) then ret (json_error "Post ID is required" 400)
     else
       clientPromise;;;
       let* oid := new_ObjectId (default "" id) in
       let* deletedCount := deleteOne oid in
       if deletedCount =? 0 then ret (json_error "Post not found" 404)
       else ret (json_ok SuccessBody))
    (λ _, ret (json_error "Failed to delete post" 500)).

Definition PUT (req : NextRequest) : M Db Response :=
  try_catch
    (let id := path_id req in
     if negb (truthy_str id) then ret (json_error "Post ID is required" 400)
     else
       let* (title, content) := request_json req in
       if negb (truthy title) || negb (truthy content)
       then ret (json_error "Title and content are required" 400)
       else
         clientPromise;;;
         let* oid := new_ObjectId (default "" id) in
         let* matchedCount := updateOne oid title content (now req) in
         if matchedCount =? 0 then ret (json_error "Post not found" 404)
         else ret (json_ok SuccessBody))
    (λ _, ret (json_error "Failed to update post" 500)).

(* --------------------------------------------------------------------- *)
(** ** Endpoints whose files are not in the source tree *)
(* --------------------------------------------------------------------- *)

(** The first record of user [u] in a voter list, as
    [voters.find(voter => voter.userId === u)] finds it. *)
Fixpoint find_voter (u : string) (vs : list Voter) : option Voter :=
  match vs with
  | [] => None
  | r :: vs' => if String.eqb (userId r) u then Some r else find_voter u vs'
  end.

(** Modelled from the spec: removing the user's voter record, if present
    (section 4.1, vote [null]). *)
Fixpoint remove_voter (u : string) (vs : list Voter) : list Voter :=
  match vs with
  | [] => []
  | r :: vs' => if String.eqb (userId r) u then vs' else r :: remove_voter u vs'
  end.

(** Modelled from the spec: replacing the record of [u], or inserting one
    when there is none (section 4.1, "replace/insert"). *)
Fixpoint upsert_voter (u : string) (d : Vote) (vs : list Voter) : list Voter :=
  match vs with
  | [] => [ {| userId := u; vote := Some d |} ]
  | r :: vs' =>
      if String.eqb (userId r) u then {| userId := u; vote := Some d |} :: vs'
      else r :: upsert_voter u d vs'
  end.

(** Modelled from the spec: the one write of the vote mutation, which sets
    the count and the voter list together and nothing else. *)
Definition set_votes (n : Z) (vs : list Voter) (d : PostDoc) : PostDoc :=
  {| title := title d; content := content d; author := author d;
     dramaSlug := dramaSlug d; dramaTitle := dramaTitle d;
     votes := n; voters := Some vs;
     createdAt := createdAt d; editedAt := editedAt d |}.

(** The voter records of a document; a document without the member has
    none. *)
Definition voter_list (d : PostDoc) : list Voter := default [] (voters d).

(** Modelled from the spec: the vote mutation of POST /api/posts/vote, whose
    route file is not in the source tree (section 4.1).  A [null] vote
    removes the user's record, if there is one, and takes its value off the
    count; a vote that differs from the recorded one (or meets no record)
    replaces or inserts the record and adds (new - old) to the count; a
    vote equal to the recorded one changes nothing.  List and count are
    written in one step. *)
Definition apply_vote (u : string) (v : option Vote) (d : PostDoc) : PostDoc :=
  let vs := voter_list d in
  match v, find_voter u vs with
  | None, None => d
  | None, Some r =>
      set_votes (votes d - recorded_value (vote r)) (remove_voter u vs) d
  | Some new, None =>
      set_votes (votes d + (vote_value new - 0)) (upsert_voter u new vs) d
  | Some new, Some r =>
      if decide (vote r = Some new) then d
      else set_votes (votes d + (vote_value new - recorded_value (vote r)))
                     (upsert_voter u new vs) d
  end.

(** Modelled from the spec: POST /api/posts/vote with body
    [{postId, userId, vote}] (sections 4.1, 6 and 7).  It fails when the
    post does not exist (404) and on a database error (500). *)
Definition POST_vote (postId u : string) (v : option Vote) : M Db Response :=
  try_catch
    (clientPromise;;;
     let* db := get in
     match posts db !! postId with
     | None => ret (json_error "Post not found" 404)
     | Some d =>
         modify (set_posts (<[postId := apply_vote u v d]>));;;
         ret (json_ok SuccessBody)
     end)
    (λ _, ret (json_error "Failed to vote" 500)).

(** Modelled from the spec: the filter of the list endpoint, by author id
    or by community slug (section 4.3). *)
Definition matches_query (byUser byDrama : option string) (p : Post) : bool :=
  match byUser, byDrama with
  | Some u, _ =>
      match author (doc p) with
      | Some a => String.eqb (author_id a) u
      | None => false
      end
  | None, Some slug =>
      match dramaSlug (doc p) with
      | Some s => String.eqb s slug
      | None => false
      end
  | None, None => true
  end.

(** The documents of the collection, each with its key as [_id]. *)
Definition all_posts (db : Db) : list Post :=
  (λ kd, {| _id := kd.1; doc := kd.2 |}) <$> map_to_list (posts db).

(** Modelled from the spec: GET /api/posts?userId=&dramaSlug= (sections 4.3
    and 6), whose route file is not in the source tree.  It answers the
    array of post documents, filtered by author id or by community slug
    when the parameter is given. *)
Definition GET_posts (byUser byDrama : option string) : M Db Response :=
  try_catch
    (clientPromise;;;
     let* db := get in
     ret (json_ok (PostsBody
            (filter (λ p, matches_query byUser byDrama p = true) (all_posts db)))))
    (λ _, ret (json_error "Failed to fetch posts" 500)).

(** Modelled from the spec: GET /api/dramas/{slug}/membership?userId=
    (section 6), whose route file is not in the source tree.  It answers
    [{color}] for the given user's membership in that community; [None]
    stands for an answer without a colour. *)
Definition GET_membership (slug u : string) : M Db Response :=
  try_catch
    (clientPromise;;;
     let* db := get in
     ret (json_ok (ColorBody (memberships db !! (slug, u)))))
    (λ _, ret (json_error "Failed to fetch membership" 500)).

End Server.

(* ===================================================================== *)
(** * The PostList component *)
(* ===================================================================== *)

Module Client.

(** The requests the component sends with [fetch].
    [GetPosts byUser byDrama] is GET /api/posts, with [?userId=] or
    [?dramaSlug=] when given. *)
Inductive ApiRequest : Type :=
  | GetPosts (byUser byDrama : option string)
  | GetMembership (slug user : string)   (* GET /api/dramas/slug/membership?userId=user *)
  | PutPost (postId : string) (title_ content_ : jval)
  | DeletePost (postId : string)
  | PostVote (postId user : string) (v : option Vote).

(** What [response.json()] yields.  [NotJson]: the promise rejects.
    [JsonNull]: the value [null].  [JsonArray]: an array of posts.
    [JsonObject c]: any other value, with its member [color] if it has
    one. *)
Inductive Payload : Type :=
  | NotJson
  | JsonNull
  | JsonArray (ps : list Post)
  | JsonObject (color : option string).

(** How a [fetch] promise settles: it rejects on a network failure, and
    otherwise resolves to a response with its [ok] flag and body. *)
Inductive FetchResult : Type :=
  | Rejected
  | Resolved (ok : bool) (payload : Payload).

Inductive ViewMode : Type := All | MyPosts | Drama.

Record Props : Type := mkProps {
  viewMode : ViewMode;
  currentUser_id : string;            (* currentUser.id *)
  props_dramaSlug : option string     (* dramaSlug?: string *)
}.

(** The component's [useState] cells.  Of the objects [userVotes] and
    [dramaColors] the own properties are kept: an inherited member is
    never equal to a vote. *)
Record State : Type := mkState {
  posts : Payload;
  loading : bool;
  userVotes : gmap string (option Vote);
  dramaColors : gmap string (option string);
  editingPost : option Post;
  editTitle : jval;
  editContent : jval
}.

Definition initial : State :=
  {| posts := JsonArray []; loading := true; userVotes := ∅;
     dramaColors := ∅; editingPost := None;
     editTitle := JStr ""; editContent := JStr "" |}.

(** What the component does to the outside, in order. *)
Inductive Event : Type :=
  | Fetch (r : ApiRequest)
  | Alert (msg : string)
  | ConsoleError (msg : string)
  | Confirm (msg : string)
  | PreventDefault.

(** [[...new Set(l)]]: the distinct elements in order of first occurrence. *)
Fixpoint unique_from {A} `{EqDecision A} (seen l : list A) : list A :=
  match l with
  | [] => []
  | x :: l' =>
      if decide (x ∈ seen) then unique_from seen l'
      else x :: unique_from (x :: seen) l'
  end.

Definition unique {A} `{EqDecision A} (l : list A) : list A := unique_from [] l.

Section Component.

Context {Srv : Type}.

(** The network and whatever answers behind it. *)
Variable net : ApiRequest → Srv → FetchResult * Srv.

Variable props : Props.

Record World : Type := mkWorld {
  ui : State;
  server : Srv;
  log : list Event
}.

Definition emit (e : Event) : M World unit :=
  modify (λ w, {| ui := ui w; server := server w; log := log w ++ [e] |}).

Definition setState (f : State → State) : M World unit :=
  modify (λ w, {| ui := f (ui w); server := server w; log := log w |}).

Definition setPosts (data : Payload) : M World unit :=
  setState (λ s, {| posts := data; loading := loading s;
                    userVotes := userVotes s; dramaColors := dramaColors s;
                    editingPost := editingPost s; editTitle := editTitle s;
                    editContent := editContent s |}).

Definition setLoading (b : bool) : M World unit :=
  setState (λ s, {| posts := posts s; loading := b;
                    userVotes := userVotes s; dramaColors := dramaColors s;
                    editingPost := editingPost s; editTitle := editTitle s;
                    editContent := editContent s |}).

Definition setUserVotes (v : gmap string (option Vote)) : M World unit :=
  setState (λ s, {| posts := posts s; loading := loading s;
                    userVotes := v; dramaColors := dramaColors s;
                    editingPost := editingPost s; editTitle := editTitle s;
                    editContent := editContent s |}).

Definition setDramaColors (c : gmap string (option string)) : M World unit :=
  setState (λ s, {| posts := posts s; loading := loading s;
                    userVotes := userVotes s; dramaColors := c;
                    editingPost := editingPost s; editTitle := editTitle s;
                    editContent := editContent s |}).

Definition setEditingPost (p : option Post) : M World unit :=
  setState (λ s, {| posts := posts s; loading := loading s;
                    userVotes := userVotes s; dramaColors := dramaColors s;
                    editingPost := p; editTitle := editTitle s;
                    editContent := editContent s |}).

Definition setEditTitle (t : jval) : M World unit :=
  setState (λ s, {| posts := posts s; loading := loading s;
                    userVotes := userVotes s; dramaColors := dramaColors s;
                    editingPost := editingPost s; editTitle := t;
                    editContent := editContent s |}).

Definition setEditContent (c : jval) : M World unit :=
  setState (λ s, {| posts := posts s; loading := loading s;
                    userVotes := userVotes s; dramaColors := dramaColors s;
                    editingPost := editingPost s; editTitle := editTitle s;
                    editContent := c |}).

(** Send a request: it reaches the server and the result is pending. *)
Definition request (r : ApiRequest) : M World FetchResult :=
  λ w, let (res, srv') := net r (server w) in
       (Done res, {| ui := ui w; server := srv'; log := log w ++ [Fetch r] |}).

(** [await] a pending fetch: a rejected promise throws. *)
Definition settle (res : FetchResult) : M World (bool * Payload) :=
  match res with
  | Rejected => throw "TypeError: Failed to fetch"
  | Resolved ok body => ret (ok, body)
  end.

(** [await fetch(...)]. *)
Definition fetch (r : ApiRequest) : M World (bool * Payload) :=
  let* res := request r in settle res.

(** [await response.json()]. *)
Definition json (response : bool * Payload) : M World Payload :=
  match response.2 with
  | NotJson => throw "SyntaxError"
  | data => ret data
  end.

(** Calling an array method ([map], [forEach]) on the fetched data. *)
Definition as_array (data : Payload) : M World (list Post) :=
  match data with
  | JsonArray ps => ret ps
  | _ => throw "TypeError"
  end.

(** [const { color } = body]. *)
Definition destructure_color (body : Payload) : M World (option string) :=
  match body with
  | JsonObject c => ret c
  | JsonArray _ => ret None
  | JsonNull | NotJson => throw "TypeError"
  end.

Fixpoint mapM {A B} (f : A → M World B) (l : list A) : M World (list B) :=
  match l with
  | [] => ret []
  | x :: l' => let* y := f x in let* ys := mapM f l' in ret (y :: ys)
  end.

Fixpoint foldM {A B} (f : B → A → M World B) (l : list A) (b : B) : M World B :=
  match l with
  | [] => ret b
  | x :: l' => let* b' := f b x in foldM f l' b'
  end.

(** The first part of each callback handed to [Promise.all], up to its
    first [await]: the callbacks run in array order, so every lookup is
    sent before any of them settles. *)
Definition send_lookup (slug : option string)
  : M World (option (string * FetchResult)) :=
  if truthy_str slug then
    let s := default "" slug in
    let* res := request (GetMembership s (currentUser_id props)) in
    ret (Some (s, res))
  else ret None.

(** The rest of a callback: it stores the colour under its slug in the
    shared object [colors], or rejects. *)
Definition finish_lookup (colors : JsObject (option string))
    (pending : option (string * FetchResult))
  : M World (JsObject (option string)) :=
  match pending with
  | None => ret colors
  | Some (s, res) =>
      let* colorRes := settle res in
      let* body := json colorRes in
      let* color := destructure_color body in
      ret (assign (λ _, false) colors s color)   (* colors[slug] = color *)
  end.

(** [await Promise.all(uniqueDramas.map(async (slug) => ...))] over the
    fresh object [colors]: it rejects as soon as one callback rejects. *)
Definition fetch_colors (uniqueDramas : list (option string))
  : M World (JsObject (option string)) :=
  let* pending := mapM send_lookup uniqueDramas in
  foldM finish_lookup pending empty_object.

(** [post.voters?.find(voter => voter.userId === currentUser.id)] *)
Definition find_userVote (post : Post) : option Voter :=
  voters (doc post) ≫= Server.find_voter (currentUser_id props).

(** Whether a recorded vote is [null]. *)
Definition is_null_vote (v : option Vote) : bool :=
  match v with None => true | Some _ => false end.

(** The body of [data.forEach((post) => ...)] over the object [votes]:
    [votes[post._id] = userVote.vote]. *)
Definition collect_vote (votes : JsObject (option Vote)) (post : Post)
  : JsObject (option Vote) :=
  match find_userVote post with
  | Some userVote => assign is_null_vote votes (_id post) (vote userVote)
  | None => votes
  end.

Definition posts_url : ApiRequest :=
  match viewMode props with
  | MyPosts => GetPosts (Some (currentUser_id props)) None
  | Drama =>
      if truthy_str (props_dramaSlug props)
      then GetPosts None (props_dramaSlug props)
      else GetPosts None None
  | All => GetPosts None None
  end.

Definition fetchPosts : M World unit :=
  finally
    (try_catch
       (let* response := fetch posts_url in
        let* data := json response in
        setPosts data;;;
        match viewMode props with
        | All =>
            let* arr := as_array data in
            let uniqueDramas := unique ((λ post, dramaSlug (doc post)) <$> arr) in
            let* colors := fetch_colors uniqueDramas in
            setDramaColors (own colors)
        | _ => ret tt
        end;;;
        let* arr := as_array data in
        setUserVotes (own (foldl collect_vote empty_object arr)))
       (λ error, emit (ConsoleError "Error fetching posts:")))
    (setLoading false).

Definition handleEdit (post : Post) : M World unit :=
  setEditingPost (Some post);;;
  setEditTitle (title (doc post));;;
  setEditContent (content (doc post)).

Definition handleCancelEdit : M World unit :=
  setEditingPost None;;;
  setEditTitle (JStr "");;;
  setEditContent (JStr "").

Definition handleSaveEdit (postId : string) : M World unit :=
  try_catch
    (let* w := get in
     let* response :=
       fetch (PutPost postId (editTitle (ui w)) (editContent (ui w))) in
     if negb response.1 then throw "Failed to update post"
     else
       setEditingPost None;;;
       setEditTitle (JStr "");;;
       setEditContent (JStr "");;;
       fetchPosts)
    (λ error,
       emit (ConsoleError "Error updating post:");;;
       emit (Alert "Failed to update post")).

(** [confirmed] is what the user answers to [confirm(...)]. *)
Definition handleDelete (confirmed : bool) (postId : string) : M World unit :=
  emit (Confirm "Are you sure you want to delete this post?");;;
  if negb confirmed then ret tt
  else
    try_catch
      (let* response := fetch (DeletePost postId) in
       if negb response.1 then throw "Failed to delete post"
       else fetchPosts)
      (λ error,
         emit (ConsoleError "Error deleting post:");;;
         emit (Alert "Failed to delete post")).

(** The vote the component puts in the request body. *)
Definition newVote (s : State) (postId : string) (v : Vote) : option Vote :=
  if decide (userVotes s !! postId = Some (Some v)) then None else Some v.

Definition handleVote (postId : string) (v : Vote) : M World unit :=
  emit PreventDefault;;;
  try_catch
    (let* w := get in
     let* response :=
       fetch (PostVote postId (currentUser_id props) (newVote (ui w) postId v)) in
     if negb response.1 then throw "Failed to vote"
     else fetchPosts)
    (λ error, emit (ConsoleError "Error voting:")).

(** What a link over a post's community is styled with:
    [dramaColors[post.dramaSlug]]. *)
Definition link_color (s : State) (slug : string) : Read (option string) :=
  read (dramaColors s) slug.

End Component.

End Client.

(* ===================================================================== *)
(** * What the component renders *)
(* ===================================================================== *)

Module Render.

Import Client.

(** The text colour classes of the vote column: text-blue-500,
    text-red-500, text-white and text-gray-400. *)
Inductive TextColor : Type := TextBlue | TextRed | TextWhite | TextGray.

(** The link over a post's community: its slug, the inline colour and the
    title shown. *)
Record CommunityLink : Type := mkCommunityLink {
  link_slug : string;
  link_style : Read (option string);  (* dramaColors[post.dramaSlug] *)
  link_text : option string           (* post.dramaTitle *)
}.

(** The right-hand side of an article: the edit form with the draft, or
    the post with its byline and, for its author, the Edit and Delete
    buttons.  The date of the byline is left out. *)
Inductive ArticleBody : Type :=
  | EditForm (titleValue contentValue : jval)
  | PostDetails (community : option CommunityLink) (heading text : jval)
                (postedBy : string) (ownerControls : bool).

Record Article : Type := mkArticle {
  article_key : string;               (* key={post._id} *)
  upArrow : TextColor;
  countColor : TextColor;
  voteCount : Z;                      (* {post.votes} *)
  downArrow : TextColor;
  article_body : ArticleBody
}.

Inductive Rendered : Type :=
  | LoadingSkeleton                   (* three placeholders *)
  | PostArticles (articles : list Article) (noPostsYet : bool).

Section Rendering.

Variable props : Props.
Variable s : State.

(** [userVotes[post._id] === v] *)
Definition voted (post : Post) (v : Vote) : bool :=
  bool_decide (userVotes s !! _id post = Some (Some v)).

(** [editingPost?._id === post._id] *)
Definition is_editing (post : Post) : bool :=
  match editingPost s with
  | Some e => String.eqb (_id e) (_id post)
  | None => false
  end.

(** [post.author?.username || 'Anonymous'] *)
Definition posted_by (post : Post) : string :=
  match author (doc post) with
  | Some a => if String.eqb (username a) "" then "Anonymous" else username a
  | None => "Anonymous"
  end.

(** [currentUser.id === post.author?.id] *)
Definition is_owner (post : Post) : bool :=
  match author (doc post) with
  | Some a => String.eqb (currentUser_id props) (author_id a)
  | None => false
  end.

(** [viewMode === 'all' && post.dramaSlug && <Link ...>] *)
Definition community_link (post : Post) : option CommunityLink :=
  match viewMode props with
  | All =>
      if truthy_str (dramaSlug (doc post)) then
        let slug := default "" (dramaSlug (doc post)) in
        Some {| link_slug := slug; link_style := read (dramaColors s) slug;
                link_text := dramaTitle (doc post) |}
      else None
  | _ => None
  end.

Definition render_article (post : Post) : Article :=
  {| article_key := _id post;
     upArrow := if voted post Up then TextBlue else TextGray;
     countColor := if voted post Up then TextBlue
                   else if voted post Down then TextRed else TextWhite;
     voteCount := votes (doc post);
     downArrow := if voted post Down then TextRed else TextGray;
     article_body :=
       if is_editing post then EditForm (editTitle s) (editContent s)
       else PostDetails (community_link post) (title (doc post))
              (content (doc post)) (posted_by post) (is_owner post) |}.

(** The body of the component after its handlers: the skeleton while
    loading, otherwise [posts.map(...)], which throws when [posts] is not
    an array, and the "No posts yet" note for an empty array. *)
Definition render : Outcome Rendered :=
  if loading s then Done LoadingSkeleton
  else match posts s with
       | JsonArray ps =>
           Done (PostArticles (render_article <$> ps)
                   (Nat.eqb (length ps) 0))
       | _ => Thrown "TypeError"
       end.

End Rendering.

End Render.

(* ===================================================================== *)
(** * The component against the endpoints *)
(* ===================================================================== *)

Module System.

Import Server Client.

(** [response.ok]: the status is in the range 200 to 299. *)
Definition is_ok (r : Response) : bool :=
  (200 <=? status r) && (status r <=? 299).

Definition payload_of (b : ResBody) : Payload :=
  match b with
  | PostsBody ps => JsonArray ps
  | ColorBody c => JsonObject c
  | ErrorBody _ | SuccessBody | PostBody _ => JsonObject None
  end.

Definition answer (h : M Db Response) (db : Db) : FetchResult * Db :=
  match h db with
  | (Done r, db') => (Resolved (is_ok r) (payload_of (body r)), db')
  | (Thrown _, db') => (Resolved false NotJson, db')
  end.

(** A network that never fails, in front of the endpoints; [clock] is the
    time the server reads. *)
Definition backend (clock : Z) (r : ApiRequest) : Db → FetchResult * Db :=
  match r with
  | GetPosts byUser byDrama => answer (GET_posts byUser byDrama)
  | GetMembership slug u => answer (GET_membership slug u)
  | PutPost postId t c =>
      answer (PUT {| pathname := "/api/posts/" +:+ postId;
                     payload := BodyJson t c; now := clock |})
  | DeletePost postId =>
      answer (DELETE {| pathname := "/api/posts/" +:+ postId;
                        payload := BodyInvalid; now := clock |})
  | PostVote postId u v => answer (POST_vote postId u v)
  end.

End System.

(* ===================================================================== *)
(** * Notions the properties are stated with *)
(* ===================================================================== *)

Module Notions.

Import Server Client System.

(* --------------------------------------------------------------------- *)
(** ** On the server *)
(* --------------------------------------------------------------------- *)

(** The status PUT answers for a malformed id: the body is looked at
    before the identifier is built. *)
Definition PUT_status_malformed (b : ReqBody) : Z :=
  match b with
  | BodyJson t c => if negb (truthy t) || negb (truthy c) then 400 else 500
  | BodyInvalid | BodyNull => 500
  end.

(** Whether the body of a request lacks a title or a content: there is no
    JSON to read, or it is [null], or one of the two members is empty or
    missing. *)
Definition lacks_field (b : ReqBody) : bool :=
  match b with
  | BodyJson t c => negb (truthy t) || negb (truthy c)
  | BodyInvalid | BodyNull => true
  end.

(** The status PUT answers such a request with. *)
Definition PUT_status_lacking (req : NextRequest) : Z :=
  match payload req with
  | BodyJson _ _ => 400
  | BodyInvalid | BodyNull => if truthy_str (path_id req) then 500 else 400
  end.

(** No post is stored under the id of the path. *)
Definition no_such_post (req : NextRequest) (db : Db) : Prop :=
  ∀ oid, ObjectId_new (default "" (path_id req)) = Some oid →
         Server.posts db !! oid = None.

(** The status DELETE answers when there is no such post. *)
Definition DELETE_status_missing (req : NextRequest) (db : Db) : Z :=
  if truthy_str (path_id req) then
    if connected db then
      match ObjectId_new (default "" (path_id req)) with
      | Some _ => 404
      | None => 500
      end
    else 500
  else 400.

Definition sum_votes (vs : list Voter) : Z :=
  foldr (λ r acc, recorded_value (vote r) + acc) 0 vs.

(** The count of a document agrees with its voter list. *)
Definition consistent (d : PostDoc) : Prop :=
  votes d = sum_votes (voter_list d).

Global Instance consistent_dec d : Decision (consistent d).
Proof. unfold consistent. apply _. Defined.

Definition store_consistent (db : Db) : Prop :=
  map_Forall (λ _ d, consistent d) (Server.posts db).

(** What a reader of the list endpoint is shown. *)
Definition observed_consistent (res : FetchResult) : Prop :=
  match res with
  | Resolved _ (JsonArray ps) => Forall (λ p, consistent (doc p)) ps
  | _ => True
  end.

(** The answers and the database states of a run of requests. *)
Fixpoint serve (clock : Z) (reqs : list ApiRequest) (db : Db)
  : list (FetchResult * Db) :=
  match reqs with
  | [] => []
  | r :: rs =>
      let (res, db') := backend clock r db in
      (res, db') :: serve clock rs db'
  end.


(* --------------------------------------------------------------------- *)
(** ** In the component *)
(* --------------------------------------------------------------------- *)

(** Events that neither change the server nor reach the user: reading
    requests and console messages. *)
Definition quiet (e : Event) : Prop :=
  match e with
  | Fetch (GetPosts _ _) | Fetch (GetMembership _ _) | ConsoleError _ => True
  | _ => False
  end.

(** The state cells with the edit draft closed. *)
Definition clear_draft (s : State) : State :=
  {| posts := posts s; loading := loading s; userVotes := userVotes s;
     dramaColors := dramaColors s; editingPost := None;
     editTitle := JStr ""; editContent := JStr "" |}.

(** How the callback of one colour lookup ends, given how its fetch
    settled: fulfilled with the colour it stores, or rejected. *)
Definition callback_result (res : FetchResult) : Outcome (option string) :=
  match res with
  | Rejected => Thrown "TypeError: Failed to fetch"
  | Resolved _ NotJson => Thrown "SyntaxError"
  | Resolved _ JsonNull => Thrown "TypeError"
  | Resolved _ (JsonArray _) => Done None
  | Resolved _ (JsonObject c) => Done c
  end.

(** The slugs of the fetched posts a lookup is sent for. *)
Definition truthy_slugs (arr : list Post) : list string :=
  omap (λ post, match dramaSlug (doc post) with
                | Some s => if String.eqb s "" then None else Some s
                | None => None
                end) arr.

Definition pending_of (lookup : string → FetchResult) (l : list (option string))
  : list (option (string * FetchResult)) :=
  (λ slug, if truthy_str slug
           then Some (default "" slug, lookup (default "" slug))
           else None) <$> l.

Fixpoint resolve_all (pending : list (option (string * FetchResult)))
    (colors : JsObject (option string))
  : Outcome (JsObject (option string)) :=
  match pending with
  | [] => Done colors
  | None :: rest => resolve_all rest colors
  | Some (s, res) :: rest =>
      match callback_result res with
      | Done c => resolve_all rest (assign (λ _, false) colors s c)
      | Thrown e => Thrown e
      end
  end.

(** The vote map a list fetch stores for the fetched posts. *)
Definition fetched_votes (props : Props) (arr : list Post)
  : gmap string (option Vote) :=
  own (foldl (collect_vote props) empty_object arr).

(** The state cells after a list fetch in 'all' mode, by how the colour
    lookups end. *)
Definition after_fetch_all (props : Props) (s : State) (arr : list Post)
    (colors : Outcome (JsObject (option string))) : State :=
  match colors with
  | Done c =>
      {| posts := JsonArray arr; loading := false;
         userVotes := fetched_votes props arr; dramaColors := own c;
         editingPost := editingPost s; editTitle := editTitle s;
         editContent := editContent s |}
  | Thrown _ =>
      {| posts := JsonArray arr; loading := false;
         userVotes := userVotes s; dramaColors := dramaColors s;
         editingPost := editingPost s; editTitle := editTitle s;
         editContent := editContent s |}
  end.

Section Worlds.

Context {Srv : Type}.

Abbreviation World := (@World Srv).

(** [w'] has the same edit draft as [w], and its log is the log of [w]
    followed by quiet events. *)
Record frame (w w' : World) : Prop := mkFrame {
  frame_editing : editingPost (ui w') = editingPost (ui w);
  frame_title : editTitle (ui w') = editTitle (ui w);
  frame_content : editContent (ui w') = editContent (ui w);
  frame_log : ∃ l, log w' = log w ++ l ∧ Forall quiet l
}.

Definition keeps {A} (m : M World A) : Prop := ∀ w, frame w (m w).2.

(** The request a vote click sends. *)
Definition vote_request (props : Props) (w : World) (postId : string) (v : Vote) : ApiRequest :=
  PostVote postId (currentUser_id props) (newVote (ui w) postId v).

(** The request a save sends. *)
Definition save_request (w : World) (postId : string) : ApiRequest :=
  PutPost postId (editTitle (ui w)) (editContent (ui w)).

End Worlds.

(* --------------------------------------------------------------------- *)
(** ** Paths *)
(* --------------------------------------------------------------------- *)

(** Whether character [c] occurs in [s]. *)
Fixpoint has_char (c : ascii) (s : string) : bool :=
  match s with
  | EmptyString => false
  | String x s' => Ascii.eqb x c || has_char c s'
  end.

(** Whether [s] ends with character [c]. *)
Fixpoint ends_with (c : ascii) (s : string) : bool :=
  match s with
  | EmptyString => false
  | String x EmptyString => Ascii.eqb x c
  | String _ s' => ends_with c s'
  end.

(* --------------------------------------------------------------------- *)
(** ** States and requests of a list fetch *)
(* --------------------------------------------------------------------- *)

(** The state cells once [setLoading(false)] has run. *)
Definition stop_loading (s : State) : State :=
  {| posts := posts s; loading := false; userVotes := userVotes s;
     dramaColors := dramaColors s; editingPost := editingPost s;
     editTitle := editTitle s; editContent := editContent s |}.

(** The state cells once [setPosts(data)] has run. *)
Definition store_posts (data : Payload) (s : State) : State :=
  {| posts := data; loading := loading s; userVotes := userVotes s;
     dramaColors := dramaColors s; editingPost := editingPost s;
     editTitle := editTitle s; editContent := editContent s |}.

(** The state cells once [setUserVotes(votes)] has run. *)
Definition store_votes (v : gmap string (option Vote)) (s : State) : State :=
  {| posts := posts s; loading := loading s; userVotes := v;
     dramaColors := dramaColors s; editingPost := editingPost s;
     editTitle := editTitle s; editContent := editContent s |}.

(** The state cells with the draft seeded from a post. *)
Definition open_draft (post : Post) (s : State) : State :=
  {| posts := posts s; loading := loading s; userVotes := userVotes s;
     dramaColors := dramaColors s; editingPost := Some post;
     editTitle := title (doc post); editContent := content (doc post) |}.

(** The colour lookups sent for a list of slugs: one for each slug that is
    not empty or missing. *)
Definition lookup_requests (user : string) (slugs : list (option string))
  : list Event :=
  omap (λ slug, if truthy_str slug
                then Some (Fetch (GetMembership (default "" slug) user))
                else None) slugs.

(** The colour lookups a list fetch in 'all' mode sends for the fetched
    posts. *)
Definition lookup_events (props : Props) (arr : list Post) : list Event :=
  lookup_requests (currentUser_id props)
    (unique ((λ post, dramaSlug (doc post)) <$> arr)).

(** The statuses the handlers of /api/posts/[id] answer with. *)
Definition handler_status (st : Z) : Prop :=
  st = 200 ∨ st = 400 ∨ st = 404 ∨ st = 500.

End Notions.

(* ===================================================================== *)
(** * Sample data *)
(* ===================================================================== *)

Module Samples.

Import Server Client System.

(** Three posts of three communities; how the colour lookup of "signal"
    goes is the parameter of the network. *)
Definition sample_doc (slug : string) : PostDoc :=
  {| title := JStr "title"; content := JStr "text"; author := None;
     dramaSlug := Some slug; dramaTitle := Some slug; votes := 0;
     voters := None; createdAt := 0; editedAt := None |}.

Definition three_posts : list Post :=
  [ {| _id := "p1"; doc := sample_doc "goblin" |};
    {| _id := "p2"; doc := sample_doc "signal" |};
    {| _id := "p3"; doc := sample_doc "misaeng" |} ].

(** How the lookup of "signal" goes is the parameter. *)
Definition sample_lookup (signal : FetchResult) (slug : string) : FetchResult :=
  if String.eqb slug "goblin" then Resolved true (JsonObject (Some "red"))
  else if String.eqb slug "signal" then signal
  else Resolved true (JsonObject (Some "blue")).

Definition sample_net (signal : FetchResult) (r : ApiRequest) (srv : unit)
  : FetchResult * unit :=
  match r with
  | GetPosts _ _ => (Resolved true (JsonArray three_posts), srv)
  | GetMembership slug _ => (sample_lookup signal slug, srv)
  | _ => (Resolved false (JsonObject None), srv)
  end.

Definition viewer : Props :=
  {| viewMode := All; currentUser_id := "u1"; props_dramaSlug := None |}.

Definition fresh : @World unit := {| ui := initial; server := tt; log := [] |}.

(** A forum with one post, behind the endpoints. *)
Definition post_id : string := "0123456789abcdef01234567".

Definition forum_doc : PostDoc :=
  {| title := JStr "Episode 3"; content := JStr "What a twist";
     author := Some {| author_id := "u2"; username := "bora" |};
     dramaSlug := Some "goblin"; dramaTitle := Some "Goblin";
     votes := 1; voters := Some [ {| userId := "u2"; vote := Some Up |} ];
     createdAt := 100; editedAt := None |}.

Definition forum : Db :=
  {| connected := true;
     Server.posts := {[ post_id := forum_doc ]};
     memberships := {[ ("goblin", "u1") := "red" ]} |}.

Definition reader : Props :=
  {| viewMode := All; currentUser_id := "u1"; props_dramaSlug := None |}.

Definition start : @World Db := {| ui := initial; server := forum; log := [] |}.



(** The component holding an up-vote that the server does not have. *)
Definition stale_start : @World Db :=
  {| ui := {| posts := JsonArray []; loading := false;
              userVotes := {[ post_id := Some Up ]}; dramaColors := ∅;
              editingPost := None; editTitle := JStr "";
              editContent := JStr "" |};
     server := forum; log := [] |}.

(** A network that settles every request the same way. *)
Definition flat_net (res : FetchResult) (r : ApiRequest) (srv : unit)
  : FetchResult * unit := (res, srv).

(** The viewer on the page of their own posts. *)
Definition own_posts_viewer : Props :=
  {| viewMode := MyPosts; currentUser_id := "u1"; props_dramaSlug := None |}.

(** A post the viewer has voted down, and one they have not voted on. *)
Definition voted_posts : list Post :=
  [ {| _id := "p1";
       doc := {| title := JStr "one"; content := JStr "text"; author := None;
                 dramaSlug := Some "goblin"; dramaTitle := Some "Goblin";
                 votes := 0;
                 voters := Some [ {| userId := "u2"; vote := Some Up |};
                                  {| userId := "u1"; vote := Some Down |} ];
                 createdAt := 0; editedAt := None |} |};
    {| _id := "p2"; doc := sample_doc "goblin" |} ].

End Samples.

(* ===================================================================== *)
(** * Properties of the route handlers *)
(* ===================================================================== *)

Module ServerFacts.

Import Server Notions.

Lemma truthy_str_Some (id : string) :
  id ≠ "" → truthy_str (Some id) = true.
Proof.
  intros Hne. simpl. destruct (String.eqb_spec id ""); [contradiction | reflexivity].
Qed.

Lemma ObjectId_new_nonempty (id oid : string) :
  ObjectId_new id = Some oid → id ≠ "".
Proof. intros H ->. discriminate H. Qed.

(** Run the monad as far as the next test on the request or the database. *)
Ltac step :=
  repeat progress
    (unfold GET, DELETE, PUT, POST_vote, GET_posts, GET_membership, try_catch,
       bind, ret, throw, get, modify, clientPromise, new_ObjectId, findOne,
       deleteOne, updateOne, request_json; simpl).

Tactic Notation "step_in" hyp(H) :=
  repeat progress
    (unfold try_catch, bind, ret, throw, get, modify, clientPromise,
       new_ObjectId, findOne, deleteOne, updateOne, request_json in H;
     simpl in H).

(** C6, as the handler has it.  A PUT whose body is JSON other than
    [null] and has an empty or missing title, or an empty or missing
    content, is answered 400.  A PUT whose body is absent, not JSON or
    [null] is answered 500, and 400 when the id is empty too.  In each of
    these cases the database is as it was. *)
Theorem PUT_lacking_field (req : NextRequest) (db : Db) :
  lacks_field (payload req) = true →
  ∃ r, PUT req db = (Done r, db) ∧ status r = PUT_status_lacking req.
Proof.
  unfold PUT_status_lacking. intros Hlacks. step.
  destruct (truthy_str (path_id req)); step.
  - destruct (payload req) as [| | t c]; step;
      try (eexists; split; reflexivity).
    simpl in Hlacks. rewrite Hlacks. eexists; split; reflexivity.
  - destruct (payload req); eexists; split; reflexivity.
Qed.

Lemma PUT_lacking_field_witness :
  let req := {| pathname := "/api/posts/0123456789abcdef01234567";
                payload := BodyJson (JStr "") (JStr "text"); now := 200 |} in
  ∃ r, PUT req Samples.forum = (Done r, Samples.forum) ∧ status r = 400.
Proof.
  intros req. apply (PUT_lacking_field req Samples.forum). reflexivity.
Defined.

(** C6 fails for a body that is absent or [null]: it has no title, and the
    answer for a stored post is 500, not 400. *)
Lemma PUT_unreadable_body_answers_500 :
  let put b := PUT {| pathname := "/api/posts/0123456789abcdef01234567";
                      payload := b; now := 200 |} Samples.forum in
  put BodyInvalid
  = (Done (json_error "Failed to update post" 500), Samples.forum) ∧
  put BodyNull
  = (Done (json_error "Failed to update post" 500), Samples.forum).
Proof. split; reflexivity. Qed.

(** C8, as the handler has it.  A DELETE for an id under which no post is
    stored returns a response and leaves the database as it was.  The
    status is 404 when the id is well-formed and the database is reached,
    500 when the id is malformed or the database is not reached, and 400
    when the id is empty. *)
Theorem DELETE_no_such_post (req : NextRequest) (db : Db) :
  no_such_post req db →
  ∃ r, DELETE req db = (Done r, db) ∧ status r = DELETE_status_missing req db.
Proof.
  unfold no_such_post, DELETE_status_missing. intros Hnone. step.
  destruct (truthy_str (path_id req)); step;
    [| eexists; split; reflexivity].
  destruct (connected db); step; [| eexists; split; reflexivity].
  destruct (ObjectId_new (default "" (path_id req))) as [oid |] eqn:Hoid; step;
    [| eexists; split; reflexivity].
  rewrite (Hnone oid eq_refl). eexists; split; reflexivity.
Qed.

Lemma DELETE_no_such_post_witness :
  let req := {| pathname := "/api/posts/aaaaaaaaaaaaaaaaaaaaaaaa";
                payload := BodyInvalid; now := 0 |} in
  ∃ r, DELETE req Samples.forum = (Done r, Samples.forum) ∧ status r = 404.
Proof.
  intros req. apply (DELETE_no_such_post req Samples.forum).
  intros oid [= <-]. reflexivity.
Defined.

(** C8 fails for a malformed id: no post is stored under "not-an-id", and
    the answer is 500, not 404. *)
Lemma DELETE_malformed_id_answers_500 :
  let req := {| pathname := "/api/posts/not-an-id";
                payload := BodyInvalid; now := 0 |} in
  path_id req = Some "not-an-id" ∧
  Server.posts Samples.forum !! "not-an-id" = None ∧
  no_such_post req Samples.forum ∧
  DELETE req Samples.forum
  = (Done (json_error "Failed to delete post" 500), Samples.forum).
Proof.
  intros req. split; [reflexivity |]. split; [reflexivity |].
  split; [| reflexivity]. intros oid Hoid. discriminate Hoid.
Qed.



(** C10, as the handlers have it.  With a non-empty last path segment that
    is not a well-formed identifier, GET and DELETE answer 500; PUT answers
    500 when its body passes the title/content check or cannot be read,
    and 400 when the title or the content is empty or missing.  The
    database is as it was in every case. *)
Theorem malformed_id_status (req : NextRequest) (db : Db) (id : string) :
  path_id req = Some id →
  id ≠ "" →
  ObjectId_new id = None →
  GET req db = (Done (json_error "Failed to fetch post" 500), db) ∧
  DELETE req db = (Done (json_error "Failed to delete post" 500), db) ∧
  ∃ r, PUT req db = (Done r, db) ∧
       status r = PUT_status_malformed (payload req).
Proof.
  intros Hid Hne Hbad. repeat split.
  - step. rewrite Hid, (truthy_str_Some id Hne). step.
    destruct (connected db); step; [rewrite Hbad |]; reflexivity.
  - step. rewrite Hid, (truthy_str_Some id Hne). step.
    destruct (connected db); step; [rewrite Hbad |]; reflexivity.
  - step. rewrite Hid, (truthy_str_Some id Hne). step.
    destruct (payload req) as [| | t c]; step;
      try (eexists; split; reflexivity).
    destruct (negb (truthy t) || negb (truthy c)); step;
      [eexists; split; reflexivity |].
    destruct (connected db); step; [rewrite Hbad |];
      eexists; split; reflexivity.
Qed.

Lemma malformed_id_status_witness :
  let req := {| pathname := "/api/posts/not-an-id";
                payload := BodyJson (JStr "title") (JStr "text"); now := 0 |} in
  let db := {| connected := true; posts := ∅; memberships := ∅ |} in
  GET req db = (Done (json_error "Failed to fetch post" 500), db) ∧
  DELETE req db = (Done (json_error "Failed to delete post" 500), db) ∧
  ∃ r, PUT req db = (Done r, db) ∧ status r = 500.
Proof.
  intros req db.
  apply (malformed_id_status req db "not-an-id");
    [reflexivity | discriminate | reflexivity].
Defined.

(** C10 fails for PUT: the id "not-an-id" is not empty and not a
    well-formed identifier, and with an empty title the answer is 400,
    not 500. *)
Lemma malformed_id_PUT_answers_400 :
  let req := {| pathname := "/api/posts/not-an-id";
                payload := BodyJson (JStr "") (JStr "text"); now := 0 |} in
  let db := {| connected := true; posts := ∅; memberships := ∅ |} in
  path_id req = Some "not-an-id" ∧
  ObjectId_new "not-an-id" = None ∧
  ∃ r, PUT req db = (Done r, db) ∧ status r = 400 ∧ status r ≠ 500.
Proof.
  intros req db. split; [reflexivity |]. split; [reflexivity |].
  eexists. split; [reflexivity |]. split; [reflexivity | discriminate].
Qed.

End ServerFacts.

(* ===================================================================== *)
(** * The vote count of a post *)
(* ===================================================================== *)

Module VoteFacts.

Import Server Client System Notions.

Lemma sum_remove_voter (u : string) (vs : list Voter) (r : Voter) :
  find_voter u vs = Some r →
  sum_votes (remove_voter u vs) = sum_votes vs - recorded_value (vote r).
Proof.
  induction vs as [| x vs IH]; simpl; [discriminate |].
  destruct (String.eqb (userId x) u).
  - intros [= ->]. lia.
  - intros H. simpl. rewrite (IH H). lia.
Qed.

Lemma sum_upsert_voter_new (u : string) (d : Vote) (vs : list Voter) :
  find_voter u vs = None →
  sum_votes (upsert_voter u d vs) = sum_votes vs + vote_value d.
Proof.
  induction vs as [| x vs IH]; simpl; [lia |].
  destruct (String.eqb (userId x) u); [discriminate |].
  intros H. simpl. rewrite (IH H). lia.
Qed.

Lemma sum_upsert_voter_old (u : string) (d : Vote) (vs : list Voter) (r : Voter) :
  find_voter u vs = Some r →
  sum_votes (upsert_voter u d vs)
  = sum_votes vs + (vote_value d - recorded_value (vote r)).
Proof.
  induction vs as [| x vs IH]; simpl; [discriminate |].
  destruct (String.eqb (userId x) u).
  - intros [= ->]. simpl. lia.
  - intros H. simpl. rewrite (IH H). lia.
Qed.

Lemma set_votes_consistent (n : Z) (vs : list Voter) (d : PostDoc) :
  n = sum_votes vs → consistent (set_votes n vs d).
Proof. intros H. exact H. Qed.

Lemma apply_vote_consistent (u : string) (v : option Vote) (d : PostDoc) :
  consistent d → consistent (apply_vote u v d).
Proof.
  unfold apply_vote. intros Hd.
  destruct v as [new |], (find_voter u (voter_list d)) as [r |] eqn:Hfind;
    try assumption.
  - destruct (decide (vote r = Some new)); [assumption |].
    apply set_votes_consistent.
    rewrite (sum_upsert_voter_old _ _ _ _ Hfind), Hd. reflexivity.
  - apply set_votes_consistent.
    rewrite (sum_upsert_voter_new _ _ _ Hfind), Hd. lia.
  - apply set_votes_consistent.
    rewrite (sum_remove_voter _ _ _ Hfind), Hd. reflexivity.
Qed.

Lemma set_fields_consistent (t c : jval) (at_ : Z) (d : PostDoc) :
  consistent d → consistent (set_fields t c at_ d).
Proof. intros H. exact H. Qed.

Import ServerFacts.

Lemma POST_vote_consistent (postId u : string) (v : option Vote) (db : Db) :
  store_consistent db → store_consistent (POST_vote postId u v db).2.
Proof.
  intros Hdb. step. destruct (connected db); step; [| assumption].
  destruct (Server.posts db !! postId) as [d |] eqn:Hd; step; [| assumption].
  apply map_Forall_insert_2; [| assumption].
  apply apply_vote_consistent. exact (Hdb _ _ Hd).
Qed.

Lemma PUT_consistent (req : NextRequest) (db : Db) :
  store_consistent db → store_consistent (PUT req db).2.
Proof.
  intros Hdb. step. destruct (truthy_str (path_id req)); step; [| assumption].
  destruct (payload req) as [| | t c]; step; try assumption.
  destruct (negb (truthy t) || negb (truthy c)); step; [assumption |].
  destruct (connected db); step; [| assumption].
  destruct (ObjectId_new _) as [oid |]; step; [| assumption].
  destruct (Server.posts db !! oid) as [d |] eqn:Hd; step; [| assumption].
  apply map_Forall_insert_2; [| assumption].
  apply set_fields_consistent. exact (Hdb _ _ Hd).
Qed.

Lemma DELETE_consistent (req : NextRequest) (db : Db) :
  store_consistent db → store_consistent (DELETE req db).2.
Proof.
  intros Hdb. step. destruct (truthy_str (path_id req)); step; [| assumption].
  destruct (connected db); step; [| assumption].
  destruct (ObjectId_new _) as [oid |]; step; [| assumption].
  destruct (Server.posts db !! oid) as [d |] eqn:Hd; step; [| assumption].
  apply map_Forall_delete. assumption.
Qed.

Lemma all_posts_consistent (db : Db) :
  store_consistent db → Forall (λ p, consistent (doc p)) (all_posts db).
Proof.
  intros Hdb. unfold all_posts. rewrite Forall_fmap.
  apply Forall_forall. intros [k d] Hin. simpl.
  apply elem_of_map_to_list in Hin. exact (Hdb _ _ Hin).
Qed.

Lemma answer_state (h : M Db Response) (db : Db) :
  (answer h db).2 = (h db).2.
Proof. unfold answer. destruct (h db) as [[r | e] db']; reflexivity. Qed.

Lemma GET_posts_reads (byUser byDrama : option string) (db : Db) :
  (GET_posts byUser byDrama db).2 = db.
Proof. step. destruct (connected db); reflexivity. Qed.

Lemma GET_membership_reads (slug u : string) (db : Db) :
  (GET_membership slug u db).2 = db.
Proof. step. destruct (connected db); reflexivity. Qed.

(** The three mutations answer an object, never an array. *)
Lemma PUT_answers_object (req : NextRequest) (db : Db) :
  ∃ ok, (answer (PUT req) db).1 = Resolved ok (JsonObject None).
Proof.
  unfold answer. step. destruct (truthy_str (path_id req)); step; [| eauto].
  destruct (payload req) as [| | t c]; step; eauto.
  destruct (negb (truthy t) || negb (truthy c)); step; [eauto |].
  destruct (connected db); step; [| eauto].
  destruct (ObjectId_new _) as [oid |]; step; [| eauto].
  destruct (Server.posts db !! oid) as [d |]; step; eauto.
Qed.

Lemma DELETE_answers_object (req : NextRequest) (db : Db) :
  ∃ ok, (answer (DELETE req) db).1 = Resolved ok (JsonObject None).
Proof.
  unfold answer. step. destruct (truthy_str (path_id req)); step; [| eauto].
  destruct (connected db); step; [| eauto].
  destruct (ObjectId_new _) as [oid |]; step; [| eauto].
  destruct (Server.posts db !! oid) as [d |]; step; eauto.
Qed.

Lemma POST_vote_answers_object (postId u : string) (v : option Vote) (db : Db) :
  ∃ ok, (answer (POST_vote postId u v) db).1 = Resolved ok (JsonObject None).
Proof.
  unfold answer. step. destruct (connected db); step; [| eauto].
  destruct (Server.posts db !! postId) as [d |]; step; eauto.
Qed.

Lemma backend_consistent (clock : Z) (r : ApiRequest) (db : Db) :
  store_consistent db →
  store_consistent (backend clock r db).2 ∧
  observed_consistent (backend clock r db).1.
Proof.
  intros Hdb. destruct r as [byUser byDrama | slug u | pid t c | pid | pid u v];
    simpl.
  - rewrite answer_state, GET_posts_reads. split; [assumption |].
    unfold answer. step. destruct (connected db); simpl; [| exact I].
    apply Forall_forall. intros p [_ Hp]%list_elem_of_filter.
    exact (proj1 (Forall_forall _ _) (all_posts_consistent db Hdb) p Hp).
  - rewrite answer_state, GET_membership_reads. split; [assumption |].
    unfold answer. step. destruct (connected db); exact I.
  - split; [rewrite answer_state; apply PUT_consistent, Hdb |].
    destruct (PUT_answers_object
                {| pathname := "/api/posts/" +:+ pid;
                   payload := BodyJson t c; now := clock |} db) as [ok ->].
    exact I.
  - split; [rewrite answer_state; apply DELETE_consistent, Hdb |].
    destruct (DELETE_answers_object
                {| pathname := "/api/posts/" +:+ pid;
                   payload := BodyInvalid; now := clock |} db) as [ok ->].
    exact I.
  - split; [rewrite answer_state; apply POST_vote_consistent, Hdb |].
    destruct (POST_vote_answers_object pid u v db) as [ok ->]. exact I.
Qed.

(** C1.  Started from a database whose posts all have a count equal to
    the sum of their voter records, every request of a run (votes for any
    post by any user, and any other request between them) leaves such a
    database, and every list a reader is answered along the run shows
    counts that agree with the voter lists: each mutation writes list and
    count in one step, so no state between the two writes exists. *)
Theorem vote_count_invariant (clock : Z) (reqs : list ApiRequest) (db : Db) :
  store_consistent db →
  Forall (λ x, store_consistent x.2 ∧ observed_consistent x.1)
         (serve clock reqs db).
Proof.
  revert db. induction reqs as [| r rs IH]; intros db Hdb; simpl.
  - constructor.
  - destruct (backend_consistent clock r db Hdb) as [Hst Hobs].
    destruct (backend clock r db) as [res db']. simpl in *.
    constructor; [split; assumption | apply IH, Hst].
Qed.

End VoteFacts.

(* ===================================================================== *)
(** * Properties of the component *)
(* ===================================================================== *)

Module ClientFacts.

Import Client Notions Samples.

Section Facts.

Context {Srv : Type}.
Variable net : ApiRequest → Srv → FetchResult * Srv.
Variable props : Props.

Abbreviation World := (@World Srv).
Abbreviation keeps := (@Notions.keeps Srv _).

(** Assignments to a plain object. *)
Lemma own_assign_ne {V} (is_null : V → bool) (o : JsObject V) (k k' : string)
    (v : V) :
  k ≠ k' → own (assign is_null o k v) !! k' = own o !! k'.
Proof.
  intros Hne. unfold assign.
  destruct (String.eqb k "__proto__" && negb (null_proto o));
    [destruct (is_null v); reflexivity |].
  simpl. apply lookup_insert_ne. exact Hne.
Qed.

Lemma own_assign_eq {V} (is_null : V → bool) (o : JsObject V) (k : string)
    (v : V) :
  k ≠ "__proto__" → own (assign is_null o k v) !! k = Some v.
Proof.
  intros Hne. unfold assign.
  destruct (String.eqb_spec k "__proto__"); [contradiction |].
  simpl. apply lookup_insert_eq.
Qed.

Lemma null_proto_assign_ne {V} (is_null : V → bool) (o : JsObject V)
    (k : string) (v : V) :
  k ≠ "__proto__" → null_proto (assign is_null o k v) = null_proto o.
Proof.
  intros Hne. unfold assign.
  destruct (String.eqb_spec k "__proto__"); [contradiction | reflexivity].
Qed.

Lemma own_assign_proto {V} (is_null : V → bool) (o : JsObject V) (v : V) :
  null_proto o = false → own (assign is_null o "__proto__" v) = own o.
Proof.
  intros Hproto. unfold assign. rewrite Hproto. simpl.
  destruct (is_null v); reflexivity.
Qed.

Lemma assign_never_null {V} (o : JsObject V) (k : string) (v : V) :
  null_proto o = false → null_proto (assign (λ _, false) o k v) = false.
Proof.
  intros Hproto. unfold assign. rewrite Hproto.
  destruct (String.eqb k "__proto__"); [exact Hproto | reflexivity].
Qed.

Lemma frame_refl (w : World) : frame w w.
Proof.
  split; try reflexivity. exists []. split; [symmetry; apply app_nil_r | constructor].
Qed.

Lemma frame_trans (w1 w2 w3 : World) : frame w1 w2 → frame w2 w3 → frame w1 w3.
Proof.
  intros [He1 Ht1 Hc1 (l1 & Hl1 & Hq1)] [He2 Ht2 Hc2 (l2 & Hl2 & Hq2)].
  split; try congruence.
  exists (l1 ++ l2). split.
  - rewrite Hl2, Hl1, app_assoc. reflexivity.
  - apply Forall_app. split; assumption.
Qed.

Lemma keeps_ret {A} (a : A) : keeps (ret a).
Proof. intros w. apply frame_refl. Qed.

Lemma keeps_throw {A} (e : string) : keeps (@throw World A e).
Proof. intros w. apply frame_refl. Qed.

Lemma keeps_get : keeps (@get World).
Proof. intros w. apply frame_refl. Qed.

Lemma keeps_bind {A B} (m : M World A) (k : A → M World B) :
  keeps m → (∀ a, keeps (k a)) → keeps (bind m k).
Proof.
  intros Hm Hk w. unfold bind. specialize (Hm w).
  destruct (m w) as [[a | e] w1]; simpl in *; [| assumption].
  eapply frame_trans; [exact Hm | apply Hk].
Qed.

Lemma keeps_try_catch {A} (m : M World A) (h : string → M World A) :
  keeps m → (∀ e, keeps (h e)) → keeps (try_catch m h).
Proof.
  intros Hm Hh w. unfold try_catch. specialize (Hm w).
  destruct (m w) as [[a | e] w1]; simpl in *; [assumption |].
  eapply frame_trans; [exact Hm | apply Hh].
Qed.

Lemma keeps_finally {A} (m : M World A) (c : M World unit) :
  keeps m → keeps c → keeps (finally m c).
Proof.
  intros Hm Hc w. unfold finally. specialize (Hm w).
  destruct (m w) as [r w1]. specialize (Hc w1).
  destruct (c w1) as [[[] | e] w2]; simpl in *;
    eapply frame_trans; eassumption.
Qed.

Lemma keeps_mapM {A B} (f : A → M World B) (l : list A) :
  (∀ a, keeps (f a)) → keeps (mapM f l).
Proof.
  intros Hf. induction l as [| x l IH]; simpl.
  - apply keeps_ret.
  - apply keeps_bind; [apply Hf |]. intros y.
    apply keeps_bind; [exact IH |]. intros ys. apply keeps_ret.
Qed.

Lemma keeps_foldM {A B} (f : B → A → M World B) (l : list A) (b : B) :
  (∀ b a, keeps (f b a)) → keeps (foldM f l b).
Proof.
  intros Hf. revert b. induction l as [| x l IH]; intros b; simpl.
  - apply keeps_ret.
  - apply keeps_bind; [apply Hf | intros b'; apply IH].
Qed.

Lemma keeps_emit (e : Event) : quiet e → keeps (emit e).
Proof.
  intros He w. split; try reflexivity.
  exists [e]. split; [reflexivity | repeat constructor; exact He].
Qed.

Lemma keeps_setPosts (data : Payload) : keeps (setPosts data).
Proof. intros w. split; try reflexivity. exists []. simpl. rewrite app_nil_r. split; [reflexivity | constructor]. Qed.

Lemma keeps_setLoading (b : bool) : keeps (setLoading b).
Proof. intros w. split; try reflexivity. exists []. simpl. rewrite app_nil_r. split; [reflexivity | constructor]. Qed.

Lemma keeps_setUserVotes (v : gmap string (option Vote)) : keeps (setUserVotes v).
Proof. intros w. split; try reflexivity. exists []. simpl. rewrite app_nil_r. split; [reflexivity | constructor]. Qed.

Lemma keeps_setDramaColors (c : gmap string (option string)) :
  keeps (setDramaColors c).
Proof. intros w. split; try reflexivity. exists []. simpl. rewrite app_nil_r. split; [reflexivity | constructor]. Qed.

Lemma keeps_request (r : ApiRequest) : quiet (Fetch r) → keeps (request net r).
Proof.
  intros Hr w. unfold request. destruct (net r (server w)) as [res srv'].
  split; try reflexivity.
  exists [Fetch r]. split; [reflexivity | repeat constructor; exact Hr].
Qed.

Lemma keeps_settle (res : FetchResult) : keeps (@settle Srv res).
Proof. destruct res; [apply keeps_throw | apply keeps_ret]. Qed.

Lemma keeps_json (response : bool * Payload) : keeps (@json Srv response).
Proof.
  unfold json. destruct response.2; apply keeps_throw || apply keeps_ret.
Qed.

Lemma keeps_as_array (data : Payload) : keeps (@as_array Srv data).
Proof. destruct data; apply keeps_throw || apply keeps_ret. Qed.

Lemma keeps_destructure_color (body : Payload) :
  keeps (@destructure_color Srv body).
Proof. destruct body; apply keeps_throw || apply keeps_ret. Qed.

Lemma keeps_fetch_colors (uniqueDramas : list (option string)) :
  keeps (fetch_colors net props uniqueDramas).
Proof.
  unfold fetch_colors. apply keeps_bind.
  - apply keeps_mapM. intros slug. unfold send_lookup.
    destruct (truthy_str slug); [| apply keeps_ret].
    apply keeps_bind; [apply keeps_request; exact I | intros; apply keeps_ret].
  - intros pending. apply keeps_foldM. intros colors [[s res] |]; simpl;
      [| apply keeps_ret].
    apply keeps_bind; [apply keeps_settle | intros colorRes].
    apply keeps_bind; [apply keeps_json | intros body].
    apply keeps_bind; [apply keeps_destructure_color | intros; apply keeps_ret].
Qed.

(** What [fetchPosts] does once its first request has been answered. *)
Lemma keeps_after_fetch (res : FetchResult) (k : bool * Payload → M World unit) :
  (∀ response, keeps (k response)) →
  keeps (finally
           (try_catch (bind (settle res) k)
              (λ _, emit (ConsoleError "Error fetching posts:")))
           (setLoading false)).
Proof.
  intros Hk. apply keeps_finally; [| apply keeps_setLoading].
  apply keeps_try_catch; [| intros; apply keeps_emit; exact I].
  apply keeps_bind; [apply keeps_settle | exact Hk].
Qed.

Lemma finally_try_fetch {A} (r : ApiRequest) (k : bool * Payload → M World A)
    (h : string → M World A) (c : M World unit) (w : World) :
  finally (try_catch (bind (fetch net r) k) h) c w
  = finally (try_catch (bind (settle (net r (server w)).1) k) h) c
      {| ui := ui w; server := (net r (server w)).2;
         log := log w ++ [Fetch r] |}.
Proof.
  unfold finally, try_catch, fetch, bind, request.
  destruct (net r (server w)) as [res srv']. reflexivity.
Qed.

Lemma finally_try_returns (m : M World unit) (e : Event) (b : bool) (w : World) :
  (finally (try_catch m (λ _, emit e)) (setLoading b) w).1 = Done tt.
Proof.
  unfold finally, try_catch.
  destruct (m w) as [[[] | msg] w1]; reflexivity.
Qed.

(** [fetchPosts] always returns: it sends the list request first, and what
    follows keeps the edit draft and is quiet. *)
Lemma fetchPosts_frame (w : World) :
  ∃ w', fetchPosts net props w = (Done tt, w') ∧
        frame {| ui := ui w; server := (net (posts_url props) (server w)).2;
                 log := log w ++ [Fetch (posts_url props)] |} w'.
Proof.
  exists (fetchPosts net props w).2. split.
  - rewrite (surjective_pairing (fetchPosts net props w)). f_equal.
    apply finally_try_returns.
  - unfold fetchPosts. rewrite finally_try_fetch.
    apply keeps_after_fetch. intros response.
    apply keeps_bind; [apply keeps_json | intros data].
    apply keeps_bind; [apply keeps_setPosts | intros _].
    apply keeps_bind.
    + destruct (viewMode props); try apply keeps_ret.
      apply keeps_bind; [apply keeps_as_array | intros arr].
      apply keeps_bind; [apply keeps_fetch_colors | intros colors].
      apply keeps_setDramaColors.
    + intros _. apply keeps_bind; [apply keeps_as_array | intros arr].
      apply keeps_setUserVotes.
Qed.

(** [handleVote], run up to the answer to its request. *)
Lemma handleVote_run (postId : string) (v : Vote) (w : World) :
  let req := vote_request props w postId v in
  let r := net req (server w) in
  handleVote net props postId v w =
    match r.1 with
    | Resolved true _ =>
        fetchPosts net props
          {| ui := ui w; server := r.2;
             log := log w ++ [PreventDefault; Fetch req] |}
    | _ =>
        (Done tt,
         {| ui := ui w; server := r.2;
            log := log w ++ [PreventDefault; Fetch req;
                             ConsoleError "Error voting:"] |})
    end.
Proof.
  intros req r. subst r req. unfold vote_request, handleVote.
  unfold bind at 1. unfold emit at 1, modify. simpl.
  unfold try_catch at 1. unfold bind at 1, get. unfold bind at 1.
  unfold fetch, bind at 1, request. simpl.
  destruct (net _ (server w)) as [[| [] body] srv']; simpl;
    rewrite <- !app_assoc; simpl;
    try (unfold emit, modify; simpl; rewrite <- !app_assoc; reflexivity).
  match goal with
  | |- context [fetchPosts net props ?w1] =>
      destruct (fetchPosts_frame w1) as (w' & -> & _)
  end.
  reflexivity.
Qed.

(** [handleSaveEdit], run up to the answer to its request. *)
Lemma handleSaveEdit_run (postId : string) (w : World) :
  let req := save_request w postId in
  let r := net req (server w) in
  handleSaveEdit net props postId w =
    match r.1 with
    | Resolved true _ =>
        fetchPosts net props
          {| ui := clear_draft (ui w); server := r.2;
             log := log w ++ [Fetch req] |}
    | _ =>
        (Done tt,
         {| ui := ui w; server := r.2;
            log := log w ++ [Fetch req; ConsoleError "Error updating post:";
                             Alert "Failed to update post"] |})
    end.
Proof.
  intros req r. subst r req. unfold save_request, handleSaveEdit.
  unfold try_catch at 1. unfold bind at 1, get. unfold bind at 1.
  unfold fetch, bind at 1, request. simpl.
  destruct (net _ (server w)) as [[| [] body] srv']; simpl;
    try (unfold bind, emit, modify; simpl; rewrite <- !app_assoc; reflexivity).
  unfold bind at 1. unfold setEditingPost at 1, setState at 1, modify at 1.
  unfold bind at 1. unfold setEditTitle at 1, setState at 1, modify at 1.
  unfold bind at 1. unfold setEditContent at 1, setState at 1, modify at 1.
  unfold clear_draft. simpl.
  match goal with
  | |- context [fetchPosts net props ?w1] =>
      destruct (fetchPosts_frame w1) as (w' & -> & _)
  end.
  reflexivity.
Qed.

(** C2.  A click on the vote control of a post, in direction [d], sends one
    vote request: with vote [null] when the vote the component holds for
    that post is [d], and with vote [d] otherwise (no vote held, [null]
    held, or the opposite vote held).  Whatever follows is quiet: no
    second vote is sent. *)
Theorem handleVote_sends_toggle (postId : string) (d : Vote) (w : World) :
  let sent :=
    if decide (userVotes (ui w) !! postId = Some (Some d)) then None else Some d in
  ∃ l, log (handleVote net props postId d w).2
       = log w ++ [PreventDefault;
                   Fetch (PostVote postId (currentUser_id props) sent)] ++ l
       ∧ Forall quiet l.
Proof.
  intros sent. rewrite handleVote_run.
  change (vote_request props w postId d)
    with (PostVote postId (currentUser_id props) sent).
  set (req := PostVote postId (currentUser_id props) sent).
  destruct (net req (server w)) as [[| [] body] srv']; simpl.
  - exists [ConsoleError "Error voting:"]. split; [reflexivity |].
    repeat constructor.
  - destruct (fetchPosts_frame
                {| ui := ui w; server := srv';
                   log := log w ++ [PreventDefault; Fetch req] |})
      as (w' & -> & [_ _ _ (l & Hl & Hq)]).
    simpl in *. exists (Fetch (posts_url props) :: l). split.
    + rewrite Hl, <- !app_assoc. reflexivity.
    + constructor; [| exact Hq]. unfold posts_url.
      destruct (viewMode props); try exact I.
      destruct (truthy_str _); exact I.
  - exists [ConsoleError "Error voting:"]. split; [reflexivity |].
    repeat constructor.
Qed.

(** C3, as the component has it.  When the vote request is answered with
    an ok response the component re-fetches the list: the list request
    follows the vote request.  When the request fails (the fetch rejects,
    or the response is not ok) the component writes to the console and
    stops: nothing is fetched and no state changes. *)
Theorem handleVote_refetch_on_success (postId : string) (d : Vote) (w : World) :
  let req := vote_request props w postId d in
  let r := net req (server w) in
  match r.1 with
  | Resolved true _ =>
      ∃ w' l,
        handleVote net props postId d w = (Done tt, w') ∧
        log w' = log w ++ [PreventDefault; Fetch req;
                           Fetch (posts_url props)] ++ l ∧
        Forall quiet l
  | _ =>
      handleVote net props postId d w =
        (Done tt,
         {| ui := ui w; server := r.2;
            log := log w ++ [PreventDefault; Fetch req;
                             ConsoleError "Error voting:"] |})
  end.
Proof.
  intros req r. rewrite handleVote_run. fold req. fold r.
  destruct r.1 as [| [] body]; try reflexivity.
  destruct (fetchPosts_frame
              {| ui := ui w; server := r.2;
                 log := log w ++ [PreventDefault; Fetch req] |})
    as (w' & Hrun & [_ _ _ (l & Hl & Hq)]).
  exists w', l. split; [exact Hrun |]. split; [| exact Hq].
  simpl in Hl. rewrite Hl, <- !app_assoc. reflexivity.
Qed.

(** C7.  A save whose update request is answered with an ok response
    clears the draft (no post being edited, empty title and content) and
    re-fetches the list, without an alert.  A save whose request fails
    writes to the console, raises the alert, and leaves every state cell,
    the draft included, as it was. *)
Theorem handleSaveEdit_outcome (postId : string) (w : World) :
  let req := save_request w postId in
  let r := net req (server w) in
  match r.1 with
  | Resolved true _ =>
      ∃ w' l,
        handleSaveEdit net props postId w = (Done tt, w') ∧
        editingPost (ui w') = None ∧
        editTitle (ui w') = JStr "" ∧
        editContent (ui w') = JStr "" ∧
        log w' = log w ++ [Fetch req; Fetch (posts_url props)] ++ l ∧
        Forall quiet l
  | _ =>
      handleSaveEdit net props postId w =
        (Done tt,
         {| ui := ui w; server := r.2;
            log := log w ++ [Fetch req; ConsoleError "Error updating post:";
                             Alert "Failed to update post"] |})
  end.
Proof.
  intros req r. rewrite handleSaveEdit_run. fold req. fold r.
  destruct r.1 as [| [] body]; try reflexivity.
  destruct (fetchPosts_frame
              {| ui := clear_draft (ui w); server := r.2;
                 log := log w ++ [Fetch req] |})
    as (w' & Hrun & [He Ht Hc (l & Hl & Hq)]).
  exists w', l. split; [exact Hrun |].
  repeat split; try assumption.
  simpl in Hl. rewrite Hl, <- !app_assoc. reflexivity.
Qed.

(* --------------------------------------------------------------------- *)
(** ** Community colours *)
(* --------------------------------------------------------------------- *)

Variable lookup : string → FetchResult.

Lemma elem_of_unique_from {A} `{EqDecision A} (seen l : list A) (x : A) :
  x ∈ unique_from seen l ↔ x ∈ l ∧ x ∉ seen.
Proof.
  revert seen. induction l as [| y l IH]; intros seen; simpl.
  - split; [intros H0; inversion H0 | intros [H0 _]; inversion H0].
  - destruct (decide (y ∈ seen)) as [Hy | Hy].
    + rewrite IH, elem_of_cons. split; [tauto |].
      intros [[-> | Hx] Hn]; [contradiction | tauto].
    + rewrite elem_of_cons, IH, !elem_of_cons. split.
      * intros [-> | [Hx Hn]]; [tauto |]. split; [tauto |].
        intros Hs. apply Hn. right. exact Hs.
      * intros [[-> | Hx] Hn]; [tauto |].
        destruct (decide (x = y)) as [-> | Hne]; [tauto |].
        right. split; [exact Hx |]. intros [? | ?]; tauto.
Qed.

Lemma elem_of_unique {A} `{EqDecision A} (l : list A) (x : A) :
  x ∈ unique l ↔ x ∈ l.
Proof.
  unfold unique. rewrite elem_of_unique_from. split; [tauto |].
  intros Hx. split; [exact Hx |]. intros H0. inversion H0.
Qed.

Lemma elem_of_truthy_slugs (arr : list Post) (s : string) :
  s ∈ truthy_slugs arr ↔
  Some s ∈ (λ post, dramaSlug (doc post)) <$> arr ∧ s ≠ "".
Proof.
  unfold truthy_slugs. rewrite list_elem_of_omap, list_elem_of_fmap. split.
  - intros (p & Hp & Hs). destruct (dramaSlug (doc p)) as [s' |] eqn:Hslug;
      [| discriminate].
    destruct (String.eqb_spec s' ""); [discriminate |].
    injection Hs as ->. split; [exists p; auto | assumption].
  - intros [(p & Hs & Hp) Hne]. exists p. split; [assumption |].
    rewrite <- Hs. destruct (String.eqb_spec s ""); [contradiction | reflexivity].
Qed.

Lemma mapM_send_lookup (l : list (option string)) (w : World) :
  (∀ s, net (GetMembership s (currentUser_id props)) (server w)
        = (lookup s, server w)) →
  ∃ w', mapM (send_lookup net props) l w = (Done (pending_of lookup l), w') ∧
        ui w' = ui w ∧ server w' = server w.
Proof.
  revert w. induction l as [| slug l IH]; intros w Hnet; simpl.
  - exists w. auto.
  - unfold bind at 1. unfold send_lookup at 1.
    destruct (truthy_str slug) eqn:Hslug.
    + unfold bind at 1. unfold request. rewrite Hnet. simpl.
      destruct (IH {| ui := ui w; server := server w;
                      log := log w ++ [Fetch (GetMembership (default "" slug)
                                                (currentUser_id props))] |}
                  Hnet) as (w' & Hrun & Hui & Hsrv).
      exists w'. unfold bind. rewrite Hrun. simpl. auto.
    + simpl. destruct (IH w Hnet) as (w' & Hrun & Hui & Hsrv).
      exists w'. unfold bind. rewrite Hrun. simpl. auto.
Qed.

Lemma foldM_finish_lookup (pending : list (option (string * FetchResult)))
    (colors : JsObject (option string)) (w : World) :
  foldM finish_lookup pending colors w = (resolve_all pending colors, w).
Proof.
  revert colors. induction pending as [| [[s res] |] rest IH]; intros colors;
    simpl.
  - reflexivity.
  - unfold bind at 1. unfold finish_lookup, bind, settle, json, destructure_color.
    destruct res as [| ok [| | ps | c]]; simpl; try reflexivity; apply IH.
  - unfold bind at 1. simpl. apply IH.
Qed.

Lemma fetch_colors_run (l : list (option string)) (w : World) :
  (∀ s, net (GetMembership s (currentUser_id props)) (server w)
        = (lookup s, server w)) →
  ∃ w', fetch_colors net props l w
        = (resolve_all (pending_of lookup l) empty_object, w') ∧
        ui w' = ui w ∧ server w' = server w.
Proof.
  intros Hnet. destruct (mapM_send_lookup l w Hnet) as (w' & Hrun & Hui & Hsrv).
  exists w'. unfold fetch_colors, bind. rewrite Hrun, foldM_finish_lookup. auto.
Qed.

Lemma resolve_all_fulfilled (l : list (option string))
    (colors : JsObject (option string)) :
  null_proto colors = false →
  (∀ s, Some s ∈ l → s ≠ "" → ∃ c, callback_result (lookup s) = Done c) →
  ∃ cs, resolve_all (pending_of lookup l) colors = Done cs ∧
        null_proto cs = false ∧
        own cs !! "__proto__" = own colors !! "__proto__" ∧
        ∀ s, s ≠ "__proto__" →
             (Some s ∈ l → s ≠ "" →
              ∀ c, callback_result (lookup s) = Done c → own cs !! s = Some c) ∧
             (¬ (Some s ∈ l ∧ s ≠ "") → own cs !! s = own colors !! s).
Proof.
  revert colors. induction l as [| slug l IH]; intros colors Hproto Hall; simpl.
  - exists colors. repeat split; try assumption; try reflexivity.
    intros H0. inversion H0.
  - assert (Hl : ∀ s, Some s ∈ l → s ≠ "" →
                 ∃ c, callback_result (lookup s) = Done c)
      by (intros s Hs; apply Hall; right; exact Hs).
    destruct (truthy_str slug) eqn:Hslug.
    + destruct slug as [s0 |]; [| discriminate]. simpl in *.
      assert (Hs0 : s0 ≠ "")
        by (destruct (String.eqb_spec s0 ""); [discriminate | assumption]).
      destruct (Hall s0 (list_elem_of_here _ _) Hs0) as [c0 Hc0].
      rewrite Hc0.
      destruct (IH (assign (λ _, false) colors s0 c0)
                  (assign_never_null colors s0 c0 Hproto) Hl)
        as (cs & Hcs & Hnull & Hp & Hlook).
      exists cs. split; [exact Hcs |]. split; [exact Hnull |]. split.
      * rewrite Hp. destruct (decide (s0 = "__proto__")) as [-> | Hne].
        -- rewrite own_assign_proto by exact Hproto. reflexivity.
        -- apply own_assign_ne. exact Hne.
      * intros s Hsp. split.
        -- intros Hin Hne c Hc.
           destruct (decide (Some s ∈ l)) as [Hsl | Hsl];
             [exact (proj1 (Hlook s Hsp) Hsl Hne c Hc) |].
           apply elem_of_cons in Hin as [[= ->] | Hin]; [| contradiction].
           rewrite (proj2 (Hlook s0 Hsp)) by tauto.
           rewrite own_assign_eq by exact Hsp. congruence.
        -- intros Hnot. rewrite (proj2 (Hlook s Hsp)).
           ++ apply own_assign_ne. intros ->. apply Hnot.
              split; [left | assumption].
           ++ intros [Hin Hne]. apply Hnot.
              split; [right; exact Hin | exact Hne].
    + destruct (IH colors Hproto Hl) as (cs & Hcs & Hnull & Hp & Hlook).
      exists cs. split; [exact Hcs |]. split; [exact Hnull |].
      split; [exact Hp |]. intros s Hsp. split.
      * intros Hin Hne c Hc. apply (proj1 (Hlook s Hsp)); try assumption.
        apply elem_of_cons in Hin as [<- | Hin]; [| exact Hin].
        simpl in Hslug. destruct (String.eqb_spec s ""); [contradiction | discriminate].
      * intros Hnot. apply (proj2 (Hlook s Hsp)).
        intros [Hin Hne]. apply Hnot. split; [right; exact Hin | exact Hne].
Qed.

Lemma resolve_all_rejected (l : list (option string))
    (colors : JsObject (option string)) :
  (∃ s e, Some s ∈ l ∧ s ≠ "" ∧ callback_result (lookup s) = Thrown e) →
  ∃ e, resolve_all (pending_of lookup l) colors = Thrown e.
Proof.
  revert colors. induction l as [| slug l IH]; intros colors (s & e & Hin & Hne & He).
  - inversion Hin.
  - simpl. destruct (truthy_str slug) eqn:Hslug.
    + destruct slug as [s0 |]; [| discriminate]. simpl.
      destruct (callback_result (lookup s0)) as [c0 | e0] eqn:Hc0; [| eauto].
      apply IH. exists s, e.
      apply elem_of_cons in Hin as [[= ->] | Hin]; [congruence | auto].
    + apply IH. exists s, e.
      apply elem_of_cons in Hin as [<- | Hin]; [| auto].
      simpl in Hslug. destruct (String.eqb_spec s ""); [contradiction | discriminate].
Qed.

Lemma fetchPosts_all_run (w : World) (ok : bool) (arr : list Post) (srv' : Srv) :
  viewMode props = All →
  net (GetPosts None None) (server w) = (Resolved ok (JsonArray arr), srv') →
  (∀ s, net (GetMembership s (currentUser_id props)) srv' = (lookup s, srv')) →
  ∃ w', fetchPosts net props w = (Done tt, w') ∧
        server w' = srv' ∧
        ui w' = after_fetch_all props (ui w) arr
                  (resolve_all
                     (pending_of lookup (unique ((λ post, dramaSlug (doc post)) <$> arr)))
                     empty_object).
Proof.
  intros Hmode Hposts Hnet. unfold fetchPosts. rewrite finally_try_fetch.
  unfold posts_url. rewrite Hmode, Hposts.
  cbv [finally try_catch bind settle json as_array setPosts setState modify
       ret fst snd ui server log].
  match goal with
  | |- context [fetch_colors net props ?l ?w2] =>
      destruct (fetch_colors_run l w2 Hnet) as (w3 & -> & Hui & Hsrv)
  end.
  destruct (resolve_all _ empty_object) as [colors | e];
    destruct w3 as [s3 srv3 log3];
    simpl in *; subst; eexists; repeat split.
Qed.


(** What the loop over the fetched posts leaves under a key. *)
Lemma foldl_collect_vote_other (ps : list Post)
    (acc : JsObject (option Vote)) (k : string) :
  k ∉ _id <$> ps →
  own (foldl (collect_vote props) acc ps) !! k = own acc !! k.
Proof.
  revert acc. induction ps as [| q ps IH]; intros acc Hk; simpl; [reflexivity |].
  rewrite fmap_cons, not_elem_of_cons in Hk. destruct Hk as [Hne Hk].
  rewrite IH by exact Hk. unfold collect_vote.
  destruct (find_userVote props q); [| reflexivity].
  apply own_assign_ne. congruence.
Qed.

Lemma foldl_collect_vote_proto (ps : list Post) (acc : JsObject (option Vote)) :
  NoDup (_id <$> ps) → null_proto acc = false →
  own (foldl (collect_vote props) acc ps) !! "__proto__"
  = own acc !! "__proto__".
Proof.
  revert acc. induction ps as [| q ps IH]; intros acc Hnd Hproto; simpl;
    [reflexivity |].
  rewrite fmap_cons in Hnd. apply NoDup_cons in Hnd as [Hq Hnd].
  destruct (decide (_id q = "__proto__")) as [Heq | Hne].
  - rewrite Heq in Hq. rewrite foldl_collect_vote_other by exact Hq.
    unfold collect_vote. destruct (find_userVote props q); [| reflexivity].
    rewrite Heq, own_assign_proto by exact Hproto. reflexivity.
  - rewrite IH; [| exact Hnd |].
    + unfold collect_vote. destruct (find_userVote props q); [| reflexivity].
      apply own_assign_ne. exact Hne.
    + unfold collect_vote. destruct (find_userVote props q); [| exact Hproto].
      rewrite null_proto_assign_ne by exact Hne. exact Hproto.
Qed.

Lemma foldl_collect_vote_lookup (ps : list Post)
    (acc : JsObject (option Vote)) (p : Post) :
  NoDup (_id <$> ps) → p ∈ ps → _id p ≠ "__proto__" →
  own (foldl (collect_vote props) acc ps) !! _id p
  = match find_userVote props p with
    | Some userVote => Some (vote userVote)
    | None => own acc !! _id p
    end.
Proof.
  revert acc. induction ps as [| q ps IH]; intros acc Hnd Hin Hp;
    [inversion Hin |].
  rewrite fmap_cons in Hnd. apply NoDup_cons in Hnd as [Hq Hnd]. simpl.
  apply elem_of_cons in Hin as [-> | Hin].
  - rewrite foldl_collect_vote_other by exact Hq. unfold collect_vote.
    destruct (find_userVote props q); [| reflexivity].
    apply own_assign_eq. exact Hp.
  - rewrite IH by assumption.
    destruct (find_userVote props p); [reflexivity |].
    unfold collect_vote. destruct (find_userVote props q); [| reflexivity].
    apply own_assign_ne. intros Heq. apply Hq. rewrite Heq.
    apply list_elem_of_fmap. exists p. auto.
Qed.

(** C4, as the component has it.  In 'all' mode the fetched posts are
    stored for rendering whatever the colour lookups do.  When every
    lookup is answered with a JSON value, each community gets the colour
    its own lookup returned, and a lookup answered without a colour (an
    error body, say) leaves just that community uncoloured; the one
    exception is a community whose slug is "__proto__", under which the
    plain object [colors] stores nothing.  When one lookup throws (its
    fetch rejects, or its body is [null] or not JSON), [Promise.all]
    rejects and no colour is applied: the colour map stays as it was. *)
Theorem fetchPosts_colors (w : World) (ok : bool) (arr : list Post) (srv' : Srv) :
  viewMode props = All →
  net (GetPosts None None) (server w) = (Resolved ok (JsonArray arr), srv') →
  (∀ s, net (GetMembership s (currentUser_id props)) srv' = (lookup s, srv')) →
  let w' := (fetchPosts net props w).2 in
  posts (ui w') = JsonArray arr ∧
  ((∀ s, s ∈ truthy_slugs arr → ∃ c, callback_result (lookup s) = Done c) →
   (∀ s c, s ∈ truthy_slugs arr → s ≠ "__proto__" →
           callback_result (lookup s) = Done c →
           dramaColors (ui w') !! s = Some c ∧ link_color (ui w') s = Own c) ∧
   dramaColors (ui w') !! "__proto__" = None) ∧
  ((∃ s e, s ∈ truthy_slugs arr ∧ callback_result (lookup s) = Thrown e) →
   dramaColors (ui w') = dramaColors (ui w)).
Proof.
  intros Hmode Hposts Hnet w'.
  destruct (fetchPosts_all_run w ok arr srv' Hmode Hposts Hnet)
    as (w1 & Hrun & _ & Hui).
  subst w'. rewrite Hrun. simpl. rewrite Hui. clear Hrun Hui.
  set (l := unique ((λ post, dramaSlug (doc post)) <$> arr)).
  assert (Hslugs : ∀ s, s ∈ truthy_slugs arr ↔ Some s ∈ l ∧ s ≠ "")
    by (intros s; unfold l; rewrite elem_of_unique; apply elem_of_truthy_slugs).
  split; [destruct (resolve_all _ empty_object); reflexivity |]. split.
  - intros Hall.
    destruct (resolve_all_fulfilled l empty_object) as (cs & -> & _ & Hp & Hlook);
      [reflexivity | |].
    { intros s' Hin Hne. apply Hall, Hslugs. auto. }
    split; [| exact Hp].
    intros s c Hs Hsp Hc. apply Hslugs in Hs as [Hin Hne].
    assert (Hcs : own cs !! s = Some c)
      by exact (proj1 (Hlook s Hsp) Hin Hne c Hc).
    split; [exact Hcs |]. unfold link_color, read. simpl. rewrite Hcs.
    reflexivity.
  - intros (s & e & Hs & He). apply Hslugs in Hs as [Hin Hne].
    destruct (resolve_all_rejected l empty_object) as [e' ->]; [eauto 6 |].
    reflexivity.
Qed.

End Facts.

(* --------------------------------------------------------------------- *)
(** ** Three communities, one lookup in trouble *)
(* --------------------------------------------------------------------- *)

Lemma fetchPosts_colors_witness :
  let signal := Resolved false (JsonObject None) in
  let w' := (fetchPosts (sample_net signal) viewer fresh).2 in
  posts (ui w') = JsonArray three_posts ∧
  ((∀ s, s ∈ truthy_slugs three_posts →
         ∃ c, callback_result (sample_lookup signal s) = Done c) →
   (∀ s c, s ∈ truthy_slugs three_posts → s ≠ "__proto__" →
           callback_result (sample_lookup signal s) = Done c →
           dramaColors (ui w') !! s = Some c ∧ link_color (ui w') s = Own c) ∧
   dramaColors (ui w') !! "__proto__" = None) ∧
  ((∃ s e, s ∈ truthy_slugs three_posts ∧
           callback_result (sample_lookup signal s) = Thrown e) →
   dramaColors (ui w') = dramaColors (ui fresh)).
Proof.
  intros signal.
  apply (fetchPosts_colors (sample_net signal) viewer (sample_lookup signal)
           fresh true three_posts tt); [reflexivity | reflexivity |].
  intros s. reflexivity.
Defined.

(** A lookup answered with an error body: its community alone is left
    without a colour. *)
Example colors_with_error_body :
  let w' := (fetchPosts (sample_net (Resolved false (JsonObject None)))
               viewer fresh).2 in
  link_color (ui w') "goblin" = Own (Some "red") ∧
  link_color (ui w') "signal" = Own None ∧
  link_color (ui w') "misaeng" = Own (Some "blue").
Proof. vm_compute. auto. Qed.

(** C4 fails when a lookup throws: the fetch for "signal" rejects, the
    lookups for "goblin" and "misaeng" are answered with their colours,
    and yet no post gets a colour. *)
Lemma colors_lost_when_lookup_rejects :
  let w' := (fetchPosts (sample_net Rejected) viewer fresh).2 in
  sample_net Rejected (GetMembership "goblin" "u1") tt
    = (Resolved true (JsonObject (Some "red")), tt) ∧
  sample_net Rejected (GetMembership "misaeng" "u1") tt
    = (Resolved true (JsonObject (Some "blue")), tt) ∧
  posts (ui w') = JsonArray three_posts ∧
  link_color (ui w') "goblin" = Missing ∧
  link_color (ui w') "misaeng" = Missing.
Proof. vm_compute. auto 6. Qed.

End ClientFacts.

(* ===================================================================== *)
(** * The component and the endpoints together *)
(* ===================================================================== *)

Module SystemFacts.

Import Server Client System Notions Samples ServerFacts ClientFacts VoteFacts.















(* --------------------------------------------------------------------- *)
(** ** A forum with one post *)
(* --------------------------------------------------------------------- *)



(** It fails as well when the component holds a vote the server does not
    have: the first click then sends [null], which changes nothing, and
    the second records the vote. *)
Example double_toggle_from_stale_votes :
  let w1 := (handleVote (backend 0) reader post_id Up stale_start).2 in
  let w2 := (handleVote (backend 0) reader post_id Up w1).2 in
  find_voter "u1" (voter_list forum_doc) = None ∧
  log w2 = [PreventDefault; Fetch (PostVote post_id "u1" None);
            Fetch (GetPosts None None); Fetch (GetMembership "goblin" "u1");
            PreventDefault; Fetch (PostVote post_id "u1" (Some Up));
            Fetch (GetPosts None None); Fetch (GetMembership "goblin" "u1")] ∧
  votes <$> Server.posts (server w2) !! post_id = Some (votes forum_doc + 1).
Proof. vm_compute. auto. Qed.

(** The scenario of the specification, on the stored post: up, up again,
    down, up. *)
Example vote_scenario :
  let click v w := (handleVote (backend 0) reader post_id v w).2 in
  let count w := votes <$> Server.posts (server w) !! post_id in
  let w1 := click Up start in
  let w2 := click Up w1 in
  let w3 := click Down w2 in
  let w4 := click Up w3 in
  (count start, count w1, count w2, count w3, count w4)
  = (Some 1, Some 2, Some 1, Some 0, Some 2).
Proof. vm_compute. reflexivity. Qed.

Lemma vote_count_invariant_witness :
  Forall (λ x, store_consistent x.2 ∧ observed_consistent x.1)
    (serve 0 [PostVote post_id "u1" (Some Up); GetPosts None None;
              PostVote post_id "u1" (Some Down); PostVote post_id "u1" None;
              PutPost post_id (JStr "t") (JStr "c"); DeletePost post_id]
       forum).
Proof.
  apply (vote_count_invariant 0 _ forum).
  apply map_Forall_singleton. vm_compute. reflexivity.
Defined.

(** C3 fails when the vote request fails: the post does not exist, the
    endpoint answers 404, and the component sends nothing after the vote
    request. *)
Lemma no_refetch_after_failed_vote :
  let w := {| ui := initial;
              server := {| connected := true; Server.posts := ∅;
                           memberships := ∅ |};
              log := [] |} in
  log (handleVote (backend 0) reader post_id Up w).2
  = [PreventDefault; Fetch (PostVote post_id "u1" (Some Up));
     ConsoleError "Error voting:"] ∧
  Fetch (posts_url reader) ∉ log (handleVote (backend 0) reader post_id Up w).2.
Proof.
  assert (Hlog : log (handleVote (backend 0) reader post_id Up
                        {| ui := initial;
                           server := {| connected := true; Server.posts := ∅;
                                        memberships := ∅ |};
                           log := [] |}).2
                 = [PreventDefault; Fetch (PostVote post_id "u1" (Some Up));
                    ConsoleError "Error voting:"])
    by (vm_compute; reflexivity).
  intros w. subst w. split; [exact Hlog |]. rewrite Hlog.
  intros Hin. repeat (apply elem_of_cons in Hin as [Hin | Hin]; [discriminate |]).
  inversion Hin.
Qed.

End SystemFacts.

(* ===================================================================== *)
(** * More on the route handlers *)
(* ===================================================================== *)

Module HandlerFacts.

Import Server Notions ServerFacts.

Lemma split_not_nil (sep : ascii) (s : string) : split sep s ≠ [].
Proof.
  destruct s as [| c s']; simpl; [discriminate |].
  destruct (Ascii.eqb c sep); [discriminate |].
  destruct (split sep s'); discriminate.
Qed.

Lemma last_cons_split (sep : ascii) (x s : string) :
  last (x :: split sep s) = last (split sep s).
Proof.
  pose proof (split_not_nil sep s) as Hne.
  destruct (split sep s); [contradiction | reflexivity].
Qed.

(** A path that has a separator splits into the segments before it and
    the segments of what follows it. *)
Lemma split_app (sep : ascii) (a b : string) :
  ∃ l, l ≠ [] ∧ split sep (a +:+ String sep b) = l ++ split sep b.
Proof.
  induction a as [| c a IH]; simpl.
  - rewrite Ascii.eqb_refl. exists [""]. split; [discriminate | reflexivity].
  - destruct IH as (l & Hl & ->). destruct (Ascii.eqb c sep).
    + exists ("" :: l). split; [discriminate | reflexivity].
    + destruct l as [| seg l]; [contradiction |]. simpl.
      exists (String c seg :: l). split; [discriminate | reflexivity].
Qed.

Lemma split_no_separator (sep : ascii) (s : string) :
  has_char sep s = false → split sep s = [s].
Proof.
  induction s as [| c s IH]; simpl; [reflexivity |].
  destruct (Ascii.eqb c sep); simpl; [discriminate |].
  intros Hs. rewrite (IH Hs). reflexivity.
Qed.

Lemma split_single_empty (sep : ascii) (s : string) :
  split sep s = [""] → s = "".
Proof.
  destruct s as [| c s']; simpl; [reflexivity |].
  destruct (Ascii.eqb c sep).
  - intros [= Hnil]. destruct (split_not_nil sep s' Hnil).
  - destruct (split sep s'); discriminate.
Qed.

Lemma last_split_empty (sep : ascii) (s : string) :
  last (split sep s) = Some "" ↔ s = "" ∨ ends_with sep s = true.
Proof.
  induction s as [| c s IH]; simpl.
  - split; [auto | reflexivity].
  - destruct (Ascii.eqb c sep) eqn:Hc.
    + rewrite last_cons_split, IH. destruct s as [| c' s]; simpl.
      * split; [auto | intros _; left; reflexivity].
      * split; [intros [? | ?]; [discriminate | auto] | intros [? | ?]; [discriminate | auto]].
    + pose proof (split_not_nil sep s) as Hne.
      destruct (split sep s) as [| seg rest] eqn:Hsplit; [contradiction |].
      destruct rest as [| seg' rest].
      * simpl. split; [discriminate |]. intros [? | Hend]; [discriminate |].
        destruct s as [| c' s]; [discriminate |].
        pose proof (proj2 IH (or_intror Hend)) as Hseg.
        injection Hseg as ->. apply split_single_empty in Hsplit. discriminate.
      * rewrite last_cons_cons, <- (last_cons_cons seg seg' rest), IH.
        destruct s as [| c' s]; [discriminate |].
        split; [intros [? | ?]; [discriminate | auto]
               | intros [? | ?]; [discriminate | auto]].
Qed.

Lemma path_id_not_None (req : NextRequest) : path_id req ≠ None.
Proof.
  unfold path_id, pop. intros Hnone. apply last_None in Hnone.
  exact (split_not_nil _ _ Hnone).
Qed.

Lemma path_id_falsy (req : NextRequest) :
  truthy_str (path_id req) = false ↔
  pathname req = "" ∨ ends_with "/" (pathname req) = true.
Proof.
  rewrite <- last_split_empty. fold (pop (split "/" (pathname req))).
  fold (path_id req). pose proof (path_id_not_None req) as Hsome.
  destruct (path_id req) as [id |]; [| contradiction]. simpl.
  destruct (String.eqb_spec id ""); simpl; split;
    try congruence; try discriminate; reflexivity.
Qed.

(** X1.  The id a handler works with is the text after the last slash of
    the path: for a path [prefix/id] whose [id] has no slash, it is [id]. *)
Theorem path_id_last_segment (req : NextRequest) (prefix id : string) :
  pathname req = prefix +:+ String "/" id →
  has_char "/" id = false →
  path_id req = Some id.
Proof.
  intros Hpath Hid. unfold path_id, pop. rewrite Hpath.
  destruct (split_app "/" prefix id) as (l & _ & ->).
  rewrite (split_no_separator _ _ Hid). apply last_snoc.
Qed.

Lemma path_id_last_segment_witness :
  path_id {| pathname := "/api/posts/0123456789abcdef01234567";
             payload := BodyInvalid; now := 0 |}
  = Some "0123456789abcdef01234567".
Proof.
  apply (path_id_last_segment _ "/api/posts" "0123456789abcdef01234567");
    reflexivity.
Defined.

(** X2.  Each of the three handlers gives the answer 400 "Post ID is
    required" exactly when the path is empty or ends with a slash; the
    database is not touched then. *)
Theorem id_required_iff (req : NextRequest) (db : Db) :
  let no_id := pathname req = "" ∨ ends_with "/" (pathname req) = true in
  let answer := (Done (json_error "Post ID is required" 400), db) in
  (GET req db = answer ↔ no_id) ∧
  (DELETE req db = answer ↔ no_id) ∧
  (PUT req db = answer ↔ no_id).
Proof.
  intros no_id answer. subst no_id answer. rewrite <- path_id_falsy.
  repeat split; step; destruct (truthy_str (path_id req)); step;
    try reflexivity; try discriminate; intros Hrun; exfalso; revert Hrun.
  - destruct (connected db); step; [| discriminate].
    destruct (ObjectId_new _) as [oid |]; step; [| discriminate].
    destruct (posts db !! oid); discriminate.
  - destruct (connected db); step; [| discriminate].
    destruct (ObjectId_new _) as [oid |]; step; [| discriminate].
    destruct (posts db !! oid); discriminate.
  - destruct (payload req) as [| | t c]; step; try discriminate.
    destruct (negb (truthy t) || negb (truthy c)); step; [discriminate |].
    destruct (connected db); step; [| discriminate].
    destruct (ObjectId_new _) as [oid |]; step; [| discriminate].
    destruct (posts db !! oid); discriminate.
Qed.

(** X3.  GET never writes: whatever the request and the answer, the
    database after it is the database before it. *)
Theorem GET_reads_only (req : NextRequest) (db : Db) :
  (GET req db).2 = db.
Proof.
  step. destruct (truthy_str (path_id req)); step; [| reflexivity].
  destruct (connected db); step; [| reflexivity].
  destruct (ObjectId_new _) as [oid |]; step; [| reflexivity].
  destruct (posts db !! oid); reflexivity.
Qed.

(** X4.  With a well-formed id and a reachable database, GET answers 200
    with the stored document and its id when there is one, and 404 when
    there is none. *)
Theorem GET_by_id (req : NextRequest) (db : Db) (id oid : string) :
  path_id req = Some id →
  ObjectId_new id = Some oid →
  connected db = true →
  GET req db
  = (Done match posts db !! oid with
          | Some d => json_ok (PostBody {| _id := oid; doc := d |})
          | None => json_error "Post not found" 404
          end, db).
Proof.
  intros Hid Hoid Hconn. step.
  rewrite Hid, (truthy_str_Some id (ObjectId_new_nonempty _ _ Hoid)). step.
  rewrite Hconn. step. rewrite Hoid. step.
  destruct (posts db !! oid); reflexivity.
Qed.

Lemma GET_by_id_witness :
  GET {| pathname := "/api/posts/0123456789abcdef01234567";
         payload := BodyInvalid; now := 0 |} Samples.forum
  = (Done (json_ok (PostBody {| _id := Samples.post_id;
                                doc := Samples.forum_doc |})),
     Samples.forum).
Proof.
  apply (GET_by_id _ Samples.forum "0123456789abcdef01234567" Samples.post_id);
    reflexivity.
Defined.

(** X5.  No exception leaves a handler: GET, DELETE and PUT always return
    a response, and its status is 200, 400, 404 or 500. *)
Theorem handlers_always_respond (req : NextRequest) (db : Db) :
  (∃ r db', GET req db = (Done r, db') ∧ handler_status (status r)) ∧
  (∃ r db', DELETE req db = (Done r, db') ∧ handler_status (status r)) ∧
  (∃ r db', PUT req db = (Done r, db') ∧ handler_status (status r)).
Proof.
  unfold handler_status. repeat split; step;
    (destruct (truthy_str (path_id req)); step;
     [| eexists _, _; split; [reflexivity | simpl; auto]]).
  - destruct (connected db); step;
      [| eexists _, _; split; [reflexivity | simpl; auto]].
    destruct (ObjectId_new _) as [oid |]; step;
      [| eexists _, _; split; [reflexivity | simpl; auto]].
    destruct (posts db !! oid);
      eexists _, _; (split; [reflexivity | simpl; auto]).
  - destruct (connected db); step;
      [| eexists _, _; split; [reflexivity | simpl; auto]].
    destruct (ObjectId_new _) as [oid |]; step;
      [| eexists _, _; split; [reflexivity | simpl; auto]].
    destruct (posts db !! oid); step;
      eexists _, _; (split; [reflexivity | simpl; auto]).
  - destruct (payload req) as [| | t c]; step;
      try (eexists _, _; split; [reflexivity | simpl; auto]).
    destruct (negb (truthy t) || negb (truthy c)); step;
      [eexists _, _; split; [reflexivity | simpl; auto] |].
    destruct (connected db); step;
      [| eexists _, _; split; [reflexivity | simpl; auto]].
    destruct (ObjectId_new _) as [oid |]; step;
      [| eexists _, _; split; [reflexivity | simpl; auto]].
    destruct (posts db !! oid); step;
      eexists _, _; (split; [reflexivity | simpl; auto]).
Qed.

(** Run a handler on a request with a well-formed id against a reachable
    database. *)
Ltac run_by_id Hid Hoid Hconn :=
  step; rewrite ?Hid, ?(truthy_str_Some _ (ObjectId_new_nonempty _ _ Hoid));
  step; rewrite ?Hconn; step; rewrite ?Hoid; step.





(** X8.  After a PUT that finds its post, GET for the same path answers
    the document with the title and content of the request and with
    [editedAt] set to the time of the request. *)
Theorem PUT_then_GET (req : NextRequest) (db : Db) (id oid : string)
    (t c : jval) (d : PostDoc) :
  path_id req = Some id →
  ObjectId_new id = Some oid →
  payload req = BodyJson t c →
  truthy t = true →
  truthy c = true →
  connected db = true →
  posts db !! oid = Some d →
  ∃ db',
    PUT req db = (Done (json_ok SuccessBody), db') ∧
    GET req db'
    = (Done (json_ok (PostBody {| _id := oid;
                                  doc := set_fields t c (now req) d |})), db').
Proof.
  intros Hid Hoid Hbody Ht Hc Hconn Hd.
  exists (set_posts (<[oid := set_fields t c (now req) d]>) db). split.
  - step. rewrite Hid, (truthy_str_Some _ (ObjectId_new_nonempty _ _ Hoid)).
    step. rewrite Hbody. step. rewrite Ht, Hc. step. rewrite Hconn. step.
    rewrite Hoid. step. rewrite Hd. reflexivity.
  - run_by_id Hid Hoid Hconn. rewrite lookup_insert_eq. reflexivity.
Qed.

Lemma PUT_then_GET_witness :
  let req := {| pathname := "/api/posts/0123456789abcdef01234567";
                payload := BodyJson (JStr "Episode 4") (JStr "Even better");
                now := 200 |} in
  ∃ db',
    PUT req Samples.forum = (Done (json_ok SuccessBody), db') ∧
    GET req db'
    = (Done (json_ok (PostBody
               {| _id := Samples.post_id;
                  doc := set_fields (JStr "Episode 4") (JStr "Even better") 200
                           Samples.forum_doc |})), db').
Proof.
  intros req.
  apply (PUT_then_GET req Samples.forum Samples.post_id Samples.post_id
           (JStr "Episode 4") (JStr "Even better") Samples.forum_doc);
    reflexivity.
Defined.

(** X9.  Sending the same PUT again changes nothing: the second request
    gets the answer of the first and leaves the database the first one
    left. *)
Theorem PUT_twice (req : NextRequest) (db : Db) :
  PUT req (PUT req db).2 = PUT req db.
Proof.
  step. destruct (truthy_str (path_id req)); step; [| reflexivity].
  destruct (payload req) as [| | t c]; step; try reflexivity.
  destruct (negb (truthy t) || negb (truthy c)); step; [reflexivity |].
  destruct (connected db) eqn:Hconn; step; [| rewrite Hconn; reflexivity].
  destruct (ObjectId_new _) as [oid |]; step; [| rewrite Hconn; reflexivity].
  destruct (posts db !! oid) as [d |] eqn:Hd; step; rewrite ?Hconn; step.
  - rewrite lookup_insert_eq. step. unfold set_posts. simpl.
    rewrite insert_insert_eq. reflexivity.
  - rewrite Hd. reflexivity.
Qed.

(** X10.  PUT neither creates nor removes a document: the ids stored after
    it are the ids stored before it. *)
Theorem PUT_keeps_ids (req : NextRequest) (db : Db) :
  dom (posts (PUT req db).2) = dom (posts db).
Proof.
  step. destruct (truthy_str (path_id req)); step; [| reflexivity].
  destruct (payload req) as [| | t c]; step; try reflexivity.
  destruct (negb (truthy t) || negb (truthy c)); step; [reflexivity |].
  destruct (connected db); step; [| reflexivity].
  destruct (ObjectId_new _) as [oid |]; step; [| reflexivity].
  destruct (posts db !! oid) as [d |] eqn:Hd; step; [| reflexivity].
  apply dom_insert_lookup_L. rewrite Hd. eauto.
Qed.

(** X11.  DELETE takes away at most one document and rewrites none: every
    document stored after it was stored before it, unchanged. *)
Theorem DELETE_only_removes (req : NextRequest) (db : Db) :
  posts (DELETE req db).2 ⊆ posts db ∧
  (size (posts db) ≤ S (size (posts (DELETE req db).2)))%nat.
Proof.
  step. destruct (truthy_str (path_id req)); step; [| split; [reflexivity | lia]].
  destruct (connected db); step; [| split; [reflexivity | lia]].
  destruct (ObjectId_new _) as [oid |]; step; [| split; [reflexivity | lia]].
  destruct (posts db !! oid) as [d |] eqn:Hd; step; [| split; [reflexivity | lia]].
  split; [apply delete_subseteq |].
  rewrite map_size_delete, Hd. simpl. lia.
Qed.

(** X12.  When the database cannot be reached, a request with an id is
    answered 500 and nothing is written: by GET and DELETE always,
    whatever the body, and by PUT when its body has a title and a
    content. *)
Theorem unreachable_database (req : NextRequest) (db : Db) (id : string) :
  connected db = false →
  path_id req = Some id →
  id ≠ "" →
  GET req db = (Done (json_error "Failed to fetch post" 500), db) ∧
  DELETE req db = (Done (json_error "Failed to delete post" 500), db) ∧
  (∀ t c, payload req = BodyJson t c → truthy t = true → truthy c = true →
          PUT req db = (Done (json_error "Failed to update post" 500), db)).
Proof.
  intros Hconn Hid Hne. repeat split.
  - step. rewrite Hid, (truthy_str_Some id Hne). step. rewrite Hconn.
    reflexivity.
  - step. rewrite Hid, (truthy_str_Some id Hne). step. rewrite Hconn.
    reflexivity.
  - intros t c Hbody Ht Hc. step. rewrite Hid, (truthy_str_Some id Hne). step.
    rewrite Hbody. step. rewrite Ht, Hc. step. rewrite Hconn. reflexivity.
Qed.

Lemma unreachable_database_witness :
  let req := {| pathname := "/api/posts/0123456789abcdef01234567";
                payload := BodyJson (JStr "title") (JStr "text"); now := 0 |} in
  let db := {| connected := false; posts := Server.posts Samples.forum;
               memberships := ∅ |} in
  GET req db = (Done (json_error "Failed to fetch post" 500), db) ∧
  DELETE req db = (Done (json_error "Failed to delete post" 500), db) ∧
  (∀ t c, payload req = BodyJson t c → truthy t = true → truthy c = true →
          PUT req db = (Done (json_error "Failed to update post" 500), db)).
Proof.
  intros req db.
  apply (unreachable_database req db "0123456789abcdef01234567");
    reflexivity || discriminate.
Defined.

(** The same for a GET and a DELETE that carry no body. *)
Example unreachable_database_no_body :
  let req := {| pathname := "/api/posts/0123456789abcdef01234567";
                payload := BodyInvalid; now := 0 |} in
  let db := {| connected := false; posts := Server.posts Samples.forum;
               memberships := ∅ |} in
  GET req db = (Done (json_error "Failed to fetch post" 500), db) ∧
  DELETE req db = (Done (json_error "Failed to delete post" 500), db).
Proof. split; reflexivity. Qed.

End HandlerFacts.

(* ===================================================================== *)
(** * More on the component *)
(* ===================================================================== *)

Module ComponentFacts.

Import Client Notions Samples ClientFacts.

Section Facts.

Context {Srv : Type}.
Variable net : ApiRequest → Srv → FetchResult * Srv.
Variable props : Props.

Abbreviation World := (@World Srv).

(** Run the component as far as the answers it has. *)
Ltac run :=
  cbv [finally try_catch bind settle json as_array destructure_color setPosts
       setUserVotes setDramaColors setLoading setEditingPost setEditTitle
       setEditContent setState modify emit get ret throw];
  cbn [ui server log fst snd].

Lemma finally_stops_loading {A} (m : M World A) (w : World) :
  loading (ui (finally m (setLoading false) w).2) = false.
Proof. unfold finally. destruct (m w) as [r w1]. reflexivity. Qed.

(** X13.  A list fetch never throws and always ends with [loading] off.
    It starts with the list request, and what follows is quiet: colour
    lookups and console messages only, so no edit, delete or vote request
    and no alert.  The edit draft is as it was. *)
Theorem fetchPosts_safe (w : World) :
  ∃ w' l,
    fetchPosts net props w = (Done tt, w') ∧
    loading (ui w') = false ∧
    editingPost (ui w') = editingPost (ui w) ∧
    editTitle (ui w') = editTitle (ui w) ∧
    editContent (ui w') = editContent (ui w) ∧
    log w' = log w ++ Fetch (posts_url props) :: l ∧
    Forall quiet l.
Proof.
  destruct (fetchPosts_frame net props w)
    as (w' & Hrun & [He Ht Hc (l & Hl & Hq)]).
  exists w', l. split; [exact Hrun |]. split.
  - replace w' with (fetchPosts net props w).2 by (rewrite Hrun; reflexivity).
    apply finally_stops_loading.
  - repeat split; try assumption.
    simpl in Hl. rewrite Hl, <- app_assoc. reflexivity.
Qed.

(** X14.  When the list fetch rejects, or its body is not JSON, nothing is
    stored: the state cells are as before, with [loading] off, and the
    console gets one message. *)
Theorem fetchPosts_failed (w : World) (res : FetchResult) (srv' : Srv) :
  net (posts_url props) (server w) = (res, srv') →
  res = Rejected ∨ (∃ ok, res = Resolved ok NotJson) →
  fetchPosts net props w
  = (Done tt,
     {| ui := stop_loading (ui w); server := srv';
        log := log w ++ [Fetch (posts_url props);
                         ConsoleError "Error fetching posts:"] |}).
Proof.
  intros Hnet Hres. unfold fetchPosts. rewrite finally_try_fetch, Hnet.
  destruct Hres as [-> | [ok ->]]; run; rewrite <- app_assoc; reflexivity.
Qed.

(** X15.  When the list endpoint answers JSON that is not an array ([null]
    or an object such as an error body), that value is stored as the
    posts all the same; votes and colours stay as they were, no colour
    lookup is sent, and the console gets one message. *)
Theorem fetchPosts_not_an_array (w : World) (ok : bool) (data : Payload)
    (srv' : Srv) :
  net (posts_url props) (server w) = (Resolved ok data, srv') →
  data = JsonNull ∨ (∃ c, data = JsonObject c) →
  fetchPosts net props w
  = (Done tt,
     {| ui := stop_loading (store_posts data (ui w)); server := srv';
        log := log w ++ [Fetch (posts_url props);
                         ConsoleError "Error fetching posts:"] |}).
Proof.
  intros Hnet Hdata. unfold fetchPosts. rewrite finally_try_fetch, Hnet.
  destruct Hdata as [-> | [c ->]]; destruct (viewMode props); run;
    rewrite <- app_assoc; reflexivity.
Qed.

(** X16.  In 'my-posts' and 'drama' mode a list fetch answered with an
    array sends nothing else: the posts and the user's votes on them are
    stored, the colours are left alone. *)
Theorem fetchPosts_filtered (w : World) (ok : bool) (arr : list Post)
    (srv' : Srv) :
  viewMode props ≠ All →
  net (posts_url props) (server w) = (Resolved ok (JsonArray arr), srv') →
  fetchPosts net props w
  = (Done tt,
     {| ui := stop_loading
                (store_votes (fetched_votes props arr)
                   (store_posts (JsonArray arr) (ui w)));
        server := srv';
        log := log w ++ [Fetch (posts_url props)] |}).
Proof.
  intros Hmode Hnet. unfold fetchPosts. rewrite finally_try_fetch, Hnet.
  destruct (viewMode props); [contradiction | |]; run; reflexivity.
Qed.

Lemma unique_from_NoDup {A} `{EqDecision A} (seen l : list A) :
  NoDup (unique_from seen l).
Proof.
  revert seen. induction l as [| x l IH]; intros seen; simpl; [constructor |].
  destruct (decide (x ∈ seen)); [apply IH |].
  constructor; [| apply IH].
  rewrite elem_of_unique_from. intros [_ Hx]. apply Hx. left.
Qed.

Lemma elem_of_lookup_requests (user s : string) (slugs : list (option string)) :
  Fetch (GetMembership s user) ∈ lookup_requests user slugs ↔
  Some s ∈ slugs ∧ s ≠ "".
Proof.
  unfold lookup_requests. rewrite list_elem_of_omap. split.
  - intros (slug & Hin & Hslug). destruct slug as [s' |]; [| discriminate].
    simpl in Hslug. destruct (String.eqb_spec s' ""); [discriminate |].
    injection Hslug as ->. auto.
  - intros [Hin Hne]. exists (Some s). split; [exact Hin |]. simpl.
    destruct (String.eqb_spec s ""); [contradiction | reflexivity].
Qed.

Lemma lookup_requests_NoDup (user : string) (slugs : list (option string)) :
  NoDup slugs → NoDup (lookup_requests user slugs).
Proof.
  induction 1 as [| slug slugs Hnotin Hnd IH]; [constructor |].
  unfold lookup_requests. simpl. fold (lookup_requests user slugs).
  destruct (truthy_str slug) eqn:Hslug; [| exact IH].
  constructor; [| exact IH].
  destruct slug as [s |]; [| discriminate].
  change (Fetch (GetMembership s user) ∉ lookup_requests user slugs).
  rewrite elem_of_lookup_requests. intros [Hin _]. contradiction.
Qed.

(** The first halves of the callbacks: every lookup is sent, in order,
    whatever the network answers. *)
Lemma mapM_send_lookup_log (slugs : list (option string)) (w : World) :
  ∃ pending w',
    mapM (send_lookup net props) slugs w = (Done pending, w') ∧
    ui w' = ui w ∧
    log w' = log w ++ lookup_requests (currentUser_id props) slugs.
Proof.
  revert w. induction slugs as [| slug slugs IH]; intros w; simpl.
  - exists [], w. rewrite app_nil_r. auto.
  - unfold bind at 1. unfold send_lookup at 1. unfold lookup_requests. simpl.
    fold (lookup_requests (currentUser_id props) slugs).
    destruct (truthy_str slug).
    + unfold bind at 1. unfold request.
      destruct (net _ (server w)) as [res srv']. simpl.
      destruct (IH {| ui := ui w; server := srv';
                      log := log w ++ [Fetch (GetMembership (default "" slug)
                                                (currentUser_id props))] |})
        as (pending & w' & Hrun & Hui & Hlog).
      eexists _, w'. unfold bind. rewrite Hrun. simpl.
      split; [reflexivity |]. split; [exact Hui |].
      rewrite Hlog. simpl. rewrite <- app_assoc. reflexivity.
    + simpl. destruct (IH w) as (pending & w' & Hrun & Hui & Hlog).
      eexists _, w'. unfold bind. rewrite Hrun. simpl. auto.
Qed.

(** X17.  In 'all' mode, after the list request the component sends one
    colour lookup for each community among the fetched posts: none for a
    post without a slug, none twice, and all of them whatever the earlier
    ones are answered.  After them comes at most the console message of a
    failure. *)
Theorem one_lookup_per_community (w : World) (ok : bool) (arr : list Post)
    (srv' : Srv) :
  viewMode props = All →
  net (GetPosts None None) (server w) = (Resolved ok (JsonArray arr), srv') →
  (∃ tail,
     log (fetchPosts net props w).2
     = log w ++ Fetch (GetPosts None None) :: lookup_events props arr ++ tail ∧
     (tail = [] ∨ tail = [ConsoleError "Error fetching posts:"])) ∧
  NoDup (lookup_events props arr) ∧
  (∀ s, Fetch (GetMembership s (currentUser_id props)) ∈ lookup_events props arr
        ↔ s ∈ truthy_slugs arr).
Proof.
  intros Hmode Hnet. split; [| split].
  - unfold fetchPosts. rewrite finally_try_fetch.
    unfold posts_url. rewrite Hmode, Hnet. run. unfold fetch_colors, bind.
    match goal with
    | |- context [mapM _ ?l ?w1] =>
        destruct (mapM_send_lookup_log l w1) as (pending & w2 & -> & Hui & Hlog)
    end.
    rewrite foldM_finish_lookup. simpl in Hlog.
    destruct (resolve_all pending empty_object) as [colors | e]; run; simpl.
    + exists []. split; [| auto]. rewrite Hlog, app_nil_r, <- app_assoc.
      reflexivity.
    + exists [ConsoleError "Error fetching posts:"]. split; [| auto].
      rewrite Hlog, <- !app_assoc. reflexivity.
  - apply lookup_requests_NoDup, unique_from_NoDup.
  - intros s. unfold lookup_events.
    rewrite elem_of_lookup_requests, elem_of_unique, elem_of_truthy_slugs.
    reflexivity.
Qed.

(** X18.  The vote map built from fetched posts with distinct ids holds,
    under the id of each post other than "__proto__", the vote of the
    current user's first record on that post, and nothing for a post
    without such a record.  It holds nothing under "__proto__", where a
    plain object takes no vote, and nothing under any other key. *)
Theorem votes_of_fetched_posts (arr : list Post) :
  NoDup (_id <$> arr) →
  (∀ post, post ∈ arr → _id post ≠ "__proto__" →
     fetched_votes props arr !! _id post = vote <$> find_userVote props post) ∧
  fetched_votes props arr !! "__proto__" = None ∧
  (∀ k, k ∉ _id <$> arr → fetched_votes props arr !! k = None).
Proof.
  intros Hnd. unfold fetched_votes. split; [| split].
  - intros post Hin Hkey.
    rewrite (foldl_collect_vote_lookup props arr empty_object post Hnd Hin Hkey).
    destruct (find_userVote props post); reflexivity.
  - rewrite (foldl_collect_vote_proto props arr empty_object Hnd eq_refl).
    apply lookup_empty.
  - intros k Hk. rewrite (foldl_collect_vote_other props arr empty_object k Hk).
    apply lookup_empty.
Qed.

(** Opening the editor on a post seeds the draft with its title and
    content; cancelling closes it with an empty draft.  Neither sends a
    request or touches another state cell. *)
Lemma edit_then_cancel (post : Post) (w : World) :
  handleEdit post w
  = (Done tt, {| ui := open_draft post (ui w); server := server w;
                 log := log w |}) ∧
  handleCancelEdit {| ui := open_draft post (ui w); server := server w;
                      log := log w |}
  = (Done tt, {| ui := clear_draft (ui w); server := server w;
                 log := log w |}).
Proof. split; reflexivity. Qed.

(** [handleDelete] once the user has confirmed, run up to the answer to
    its request. *)
Lemma handleDelete_run (postId : string) (w : World) :
  let r := net (DeletePost postId) (server w) in
  handleDelete net props true postId w =
    match r.1 with
    | Resolved true _ =>
        fetchPosts net props
          {| ui := ui w; server := r.2;
             log := log w ++ [Confirm "Are you sure you want to delete this post?";
                              Fetch (DeletePost postId)] |}
    | _ =>
        (Done tt,
         {| ui := ui w; server := r.2;
            log := log w ++ [Confirm "Are you sure you want to delete this post?";
                             Fetch (DeletePost postId);
                             ConsoleError "Error deleting post:";
                             Alert "Failed to delete post"] |})
    end.
Proof.
  intros r. subst r. unfold handleDelete.
  unfold bind at 1. unfold emit at 1, modify. simpl.
  unfold try_catch at 1. unfold bind at 1. unfold fetch, bind at 1, request.
  simpl.
  destruct (net _ (server w)) as [[| [] body] srv']; simpl;
    rewrite <- ?app_assoc; simpl;
    try (unfold bind, emit, modify; simpl; rewrite <- !app_assoc; reflexivity).
  match goal with
  | |- context [fetchPosts net props ?w1] =>
      destruct (fetchPosts_frame net props w1) as (w' & -> & _)
  end.
  reflexivity.
Qed.

(** X19.  A delete the user declines sends nothing and changes nothing.
    A confirmed delete answered with an ok response is followed by the
    list request, without an alert; one that fails gives the console
    message and the alert, and the state cells stay as they were. *)
Theorem handleDelete_outcome (postId : string) (w : World) :
  let asked := Confirm "Are you sure you want to delete this post?" in
  let r := net (DeletePost postId) (server w) in
  handleDelete net props false postId w
  = (Done tt, {| ui := ui w; server := server w; log := log w ++ [asked] |}) ∧
  match r.1 with
  | Resolved true _ =>
      ∃ w' l,
        handleDelete net props true postId w = (Done tt, w') ∧
        log w' = log w ++ [asked; Fetch (DeletePost postId);
                           Fetch (posts_url props)] ++ l ∧
        Forall quiet l
  | _ =>
      handleDelete net props true postId w =
        (Done tt,
         {| ui := ui w; server := r.2;
            log := log w ++ [asked; Fetch (DeletePost postId);
                             ConsoleError "Error deleting post:";
                             Alert "Failed to delete post"] |})
  end.
Proof.
  intros asked r. split; [reflexivity |].
  rewrite handleDelete_run. fold r. subst asked.
  destruct r.1 as [| [] body]; try reflexivity.
  match goal with
  | |- context [fetchPosts net props ?w1] =>
      destruct (fetchPosts_frame net props w1)
        as (w' & Hrun & [_ _ _ (l & Hl & Hq)])
  end.
  exists w', l. split; [exact Hrun |]. split; [| exact Hq].
  simpl in Hl. rewrite Hl, <- !app_assoc. reflexivity.
Qed.

(** X20.  A vote click and a delete click never throw, and neither touches
    the edit draft: a post being edited stays open with its title and
    content while the user votes or deletes. *)
Theorem vote_and_delete_keep_draft (postId : string) (v : Vote)
    (confirmed : bool) (w : World) :
  (∃ w', handleVote net props postId v w = (Done tt, w') ∧
         editingPost (ui w') = editingPost (ui w) ∧
         editTitle (ui w') = editTitle (ui w) ∧
         editContent (ui w') = editContent (ui w)) ∧
  (∃ w', handleDelete net props confirmed postId w = (Done tt, w') ∧
         editingPost (ui w') = editingPost (ui w) ∧
         editTitle (ui w') = editTitle (ui w) ∧
         editContent (ui w') = editContent (ui w)).
Proof.
  split.
  - rewrite handleVote_run.
    destruct (net _ (server w)) as [[| [] body] srv']; simpl;
      try solve [eexists; repeat split].
    match goal with
    | |- context [fetchPosts net props ?w1] =>
        destruct (fetchPosts_frame net props w1) as (w' & -> & [He Ht Hc _])
    end.
    exists w'. auto.
  - destruct confirmed; [| solve [eexists; repeat split]].
    rewrite handleDelete_run.
    destruct (net _ (server w)) as [[| [] body] srv']; simpl;
      try solve [eexists; repeat split].
    match goal with
    | |- context [fetchPosts net props ?w1] =>
        destruct (fetchPosts_frame net props w1) as (w' & -> & [He Ht Hc _])
    end.
    exists w'. auto.
Qed.

End Facts.

Lemma fetchPosts_failed_witness :
  fetchPosts (flat_net Rejected) viewer fresh
  = (Done tt,
     {| ui := stop_loading initial; server := tt;
        log := [Fetch (GetPosts None None);
                ConsoleError "Error fetching posts:"] |}).
Proof.
  apply (fetchPosts_failed (flat_net Rejected) viewer fresh Rejected tt);
    [reflexivity | left; reflexivity].
Defined.

Lemma fetchPosts_not_an_array_witness :
  fetchPosts (flat_net (Resolved false (JsonObject None))) viewer fresh
  = (Done tt,
     {| ui := stop_loading (store_posts (JsonObject None) initial);
        server := tt;
        log := [Fetch (GetPosts None None);
                ConsoleError "Error fetching posts:"] |}).
Proof.
  apply (fetchPosts_not_an_array
           (flat_net (Resolved false (JsonObject None))) viewer fresh
           false (JsonObject None) tt);
    [reflexivity | right; exists None; reflexivity].
Defined.

Lemma fetchPosts_filtered_witness :
  fetchPosts (flat_net (Resolved true (JsonArray voted_posts)))
    own_posts_viewer fresh
  = (Done tt,
     {| ui := stop_loading
                (store_votes (fetched_votes own_posts_viewer voted_posts)
                   (store_posts (JsonArray voted_posts) initial));
        server := tt;
        log := [Fetch (GetPosts (Some "u1") None)] |}).
Proof.
  apply (fetchPosts_filtered
           (flat_net (Resolved true (JsonArray voted_posts)))
           own_posts_viewer fresh true voted_posts tt);
    [discriminate | reflexivity].
Defined.

Lemma one_lookup_per_community_witness :
  let net := sample_net Rejected in
  (∃ tail,
     log (fetchPosts net viewer fresh).2
     = log fresh ++ Fetch (GetPosts None None)
         :: lookup_events viewer three_posts ++ tail ∧
     (tail = [] ∨ tail = [ConsoleError "Error fetching posts:"])) ∧
  NoDup (lookup_events viewer three_posts) ∧
  (∀ s, Fetch (GetMembership s (currentUser_id viewer))
          ∈ lookup_events viewer three_posts
        ↔ s ∈ truthy_slugs three_posts).
Proof.
  intros net.
  apply (one_lookup_per_community net viewer fresh true three_posts tt);
    reflexivity.
Defined.

Lemma votes_of_fetched_posts_witness :
  (∀ post, post ∈ voted_posts → _id post ≠ "__proto__" →
     fetched_votes own_posts_viewer voted_posts !! _id post
     = vote <$> find_userVote own_posts_viewer post) ∧
  fetched_votes own_posts_viewer voted_posts !! "__proto__" = None ∧
  (∀ k, k ∉ _id <$> voted_posts →
     fetched_votes own_posts_viewer voted_posts !! k = None).
Proof.
  apply (votes_of_fetched_posts own_posts_viewer voted_posts).
  simpl. apply NoDup_cons. split; [| apply NoDup_singleton].
  rewrite list_elem_of_singleton. discriminate.
Defined.

(** The votes of the sample: the viewer's down-vote on the first post,
    nothing for the second. *)
Example votes_of_sample :
  fetched_votes own_posts_viewer voted_posts !! "p1" = Some (Some Down) ∧
  fetched_votes own_posts_viewer voted_posts !! "p2" = None.
Proof. vm_compute. auto. Qed.

(** A vote under the id "__proto__" is not stored: a number is ignored,
    and [null] only takes the prototype away, after which a second post
    of that id would be stored. *)
Example votes_under_reserved_id :
  let voted v := {| _id := "__proto__";
                    doc := {| title := JStr "t"; content := JStr "c";
                              author := None; dramaSlug := None;
                              dramaTitle := None; votes := 0;
                              voters := Some [ {| userId := "u1"; vote := v |} ];
                              createdAt := 0; editedAt := None |} |} in
  fetched_votes own_posts_viewer [voted (Some Up)] = ∅ ∧
  fetched_votes own_posts_viewer [voted None] = ∅ ∧
  fetched_votes own_posts_viewer [voted None; voted (Some Up)]
  = {[ "__proto__" := Some Up ]}.
Proof. vm_compute. auto. Qed.

End ComponentFacts.

(* ===================================================================== *)
(** * Saving a draft against the PUT handler *)
(* ===================================================================== *)

Module SaveFacts.

Import Server Client System Notions Samples ServerFacts ClientFacts.

Lemma backend_rejects_empty_field (clock : Z) (pid : string) (t c : jval)
    (db : Db) :
  truthy t = false ∨ truthy c = false →
  backend clock (PutPost pid t c) db = (Resolved false (JsonObject None), db).
Proof.
  intros Hempty. simpl. unfold answer. step.
  destruct (truthy_str (path_id _)); step; [| reflexivity].
  destruct Hempty as [Ht | Hc].
  - rewrite Ht. reflexivity.
  - rewrite Hc. destruct (truthy t); reflexivity.
Qed.

(** X21.  Saving a draft whose title or content is empty, against the PUT
    handler: the request is sent and refused, the user gets the alert, the
    draft stays open as it was, nothing is re-fetched and the database is
    unchanged. *)
Theorem save_empty_draft (clock : Z) (props : Props) (pid : string)
    (w : @World Db) :
  truthy (editTitle (ui w)) = false ∨ truthy (editContent (ui w)) = false →
  handleSaveEdit (backend clock) props pid w
  = (Done tt,
     {| ui := ui w; server := server w;
        log := log w ++ [Fetch (PutPost pid (editTitle (ui w))
                                  (editContent (ui w)));
                         ConsoleError "Error updating post:";
                         Alert "Failed to update post"] |}).
Proof.
  intros Hempty. rewrite handleSaveEdit_run. unfold save_request.
  rewrite (backend_rejects_empty_field clock pid _ _ (server w) Hempty).
  reflexivity.
Qed.

Lemma save_empty_draft_witness :
  handleSaveEdit (backend 0) reader post_id start
  = (Done tt,
     {| ui := initial; server := forum;
        log := [Fetch (PutPost post_id (JStr "") (JStr ""));
                ConsoleError "Error updating post:";
                Alert "Failed to update post"] |}).
Proof.
  apply (save_empty_draft 0 reader post_id start). left. reflexivity.
Defined.

End SaveFacts.

(* ===================================================================== *)
(** * Rendering, and editing followed by saving *)
(* ===================================================================== *)

Module RenderFacts.

Import Client Render Notions Samples ClientFacts.

Section Facts.

Context {Srv : Type}.
Variable net : ApiRequest → Srv → FetchResult * Srv.
Variable props : Props.

Abbreviation World := (@World Srv).

(** X22.  When the list endpoint answers JSON that is not an array, the
    next render of the component throws: the value was stored as the
    posts, loading is off, and [posts.map] is not there to call. *)
Theorem render_throws_after_non_array (w : World) (ok : bool) (data : Payload)
    (srv' : Srv) :
  net (posts_url props) (server w) = (Resolved ok data, srv') →
  data = JsonNull ∨ (∃ c, data = JsonObject c) →
  render props (ui (fetchPosts net props w).2) = Thrown "TypeError".
Proof.
  intros Hnet Hdata. unfold fetchPosts. rewrite finally_try_fetch, Hnet.
  destruct Hdata as [-> | [c ->]]; destruct (viewMode props); reflexivity.
Qed.

(** X23.  In every article the two arrows are never both highlighted, and
    the count is blue exactly with the up arrow, red exactly with the down
    arrow, and white when neither is. *)
Theorem arrows_agree (s : State) (post : Post) :
  let a := render_article props s post in
  ¬ (upArrow a = TextBlue ∧ downArrow a = TextRed) ∧
  (countColor a = TextBlue ↔ upArrow a = TextBlue) ∧
  (countColor a = TextRed ↔ downArrow a = TextRed) ∧
  (countColor a = TextWhite ↔ upArrow a = TextGray ∧ downArrow a = TextGray).
Proof.
  unfold render_article, voted. simpl.
  destruct (bool_decide (userVotes s !! _id post = Some (Some Up))) eqn:Hup;
    destruct (bool_decide (userVotes s !! _id post = Some (Some Down))) eqn:Hdown.
  - apply bool_decide_eq_true in Hup, Hdown. congruence.
  - repeat split; intros; intuition discriminate.
  - repeat split; intros; intuition discriminate.
  - repeat split; intros; intuition discriminate.
Qed.

(** X24.  Opening the editor on a post and saving at once sends the PUT
    for that post's id with the post's own title and content: an
    untouched draft is still submitted. *)
Theorem edit_then_save_request (post : Post) (w : World) :
  ∃ l, log (handleSaveEdit net props (_id post) (handleEdit post w).2).2
       = log w ++ Fetch (PutPost (_id post) (title (doc post))
                           (content (doc post))) :: l.
Proof.
  rewrite handleSaveEdit_run. unfold save_request. simpl.
  match goal with
  | |- context [net ?r ?srv] => destruct (net r srv) as [[| [] body] srv']
  end; simpl; try (eexists; reflexivity).
  match goal with
  | |- context [fetchPosts net props ?w1] =>
      destruct (fetchPosts_frame net props w1)
        as (w' & -> & [_ _ _ (l & Hl & _)])
  end.
  simpl in *. rewrite Hl, <- !app_assoc. eexists. reflexivity.
Qed.

End Facts.

Lemma render_throws_after_non_array_witness :
  render viewer
    (ui (fetchPosts (flat_net (Resolved false (JsonObject None)))
           viewer fresh).2)
  = Thrown "TypeError".
Proof.
  apply (render_throws_after_non_array
           (flat_net (Resolved false (JsonObject None))) viewer fresh
           false (JsonObject None) tt);
    [reflexivity | right; exists None; reflexivity].
Defined.

(** Before the first answer the component shows the skeleton; after a
    list of three posts, three articles in the order fetched. *)
Example render_sample :
  render viewer initial = Done LoadingSkeleton ∧
  (∃ articles,
     render viewer
       (ui (fetchPosts (sample_net (Resolved false (JsonObject None)))
              viewer fresh).2)
     = Done (PostArticles articles false) ∧
     article_key <$> articles = ["p1"; "p2"; "p3"]).
Proof. split; [reflexivity |]. eexists. split; vm_compute; reflexivity. Qed.

End RenderFacts.
